(** * NutriLens AI: the capture-analyze-persist workflow of [src/App.tsx]

    A shallow embedding of the [App] component: its React state, the video
    element reference, the camera streams of the device, [localStorage], and
    the suspended continuations of its [async] handlers.  Every handler of
    the component is a function on that state; what the platform decides
    (the outcome of a request, the clock, the frame encoded by the canvas)
    is an argument of the handler or of the event that resumes it. *)

From Stdlib Require Import ZArith QArith String Ascii DecimalString.
From stdpp Require Import base option list gmap.

Set Warnings "-register-all".
Local Open Scope Z_scope.
Local Open Scope list_scope.

(** ** JavaScript strings

    A JavaScript string is a sequence of UTF-16 code units. *)

Module JS.

Abbreviation jsstring := (list N).

(** The code units of an ASCII literal of the source. *)
Definition lit (s : string) : jsstring :=
  N_of_ascii <$> list_ascii_of_string s.

(** [WhiteSpace] and [LineTerminator] code units (ECMA-262, 12.2 and 12.3):
    the ones [String.prototype.trim] strips. *)
Definition is_white_space (c : N) : bool :=
  ((9 <=? c) && (c <=? 13))%N
  || (c =? 32)%N || (c =? 160)%N || (c =? 5760)%N
  || ((8192 <=? c) && (c <=? 8202))%N
  || (c =? 8232)%N || (c =? 8233)%N || (c =? 8239)%N || (c =? 8287)%N
  || (c =? 12288)%N || (c =? 65279)%N.

Fixpoint trim_start (s : jsstring) : jsstring :=
  match s with
  | c :: r => if is_white_space c then trim_start r else s
  | [] => []
  end.

(** [s.trim()] *)
Definition trim (s : jsstring) : jsstring :=
  rev (trim_start (rev (trim_start s))).

(** [ToBoolean] of a string: the empty string is falsy. *)
Definition truthy_string (s : jsstring) : bool :=
  match s with [] => false | _ :: _ => true end.

(** [ToBoolean] of a [string | null] (or [string | undefined]) value. *)
Definition truthy (v : option jsstring) : bool :=
  match v with Some s => truthy_string s | None => false end.

(** [a || b] where [a : string | undefined] and [b : string]. *)
Definition or_else (a : option jsstring) (b : jsstring) : jsstring :=
  match a with
  | Some s => if truthy_string s then s else b
  | None => b
  end.

(** [n.toString()] of an integral number. *)
Definition toString (n : Z) : jsstring :=
  lit (NilZero.string_of_int (Z.to_int n)).

End JS.
Export JS.

(** ** [src/types.ts] *)

(** A JavaScript [number] that holds a finite value.  The component only
    stores and forwards these numbers. *)
Definition number := Q.

Record NutritionData := {
  calories : number;
  protein : number;
  carbs : number;
  fat : number;
  fiber : option number;
  sugar : option number;
  vitamins : option (list jsstring)
}.

Record RecipeStep := {
  step : number;
  instruction : jsstring
}.

Record FoodData := {
  food_name : jsstring;
  confidence : jsstring;
  nutrition : NutritionData;
  ingredients : list jsstring;
  recipe : list RecipeStep;
  allergens : list jsstring;
  serving_size : jsstring;
  cuisine : jsstring;
  classification : jsstring;
  tips : option (list jsstring)
}.

(** [imageUrl] is declared a [string]; what is stored in it is the argument
    of [handleAnalyze], which is [reader.result as string] after an upload:
    [null] ([None]) when the file could not be read. *)
Record AnalysisHistory := {
  id : jsstring;
  timestamp : Z;
  imageUrl : option jsstring;
  data : FoodData
}.

(** ** [JSON.parse]

    The platform's parser, after the JSON grammar of ECMA-404: it returns the
    parsed value, or throws a [SyntaxError] ([None] here) when the text is
    not a JSON text.  A number is kept as its lexeme. *)

Module JSON.

Inductive json :=
| JNull
| JBool (b : bool)
| JNumber (lexeme : jsstring)
| JString (s : jsstring)
| JArray (elements : list json)
| JObject (members : list (jsstring * json)).

Definition is_ws (c : N) : bool :=
  ((c =? 32) || (c =? 9) || (c =? 10) || (c =? 13))%N.

Fixpoint skip_ws (s : jsstring) : jsstring :=
  match s with
  | c :: r => if is_ws c then skip_ws r else s
  | [] => []
  end.

Definition is_digit (c : N) : bool := ((48 <=? c) && (c <=? 57))%N.

Definition hex (c : N) : option N :=
  if is_digit c then Some (c - 48)%N
  else if ((97 <=? c) && (c <=? 102))%N then Some (c - 87)%N
  else if ((65 <=? c) && (c <=? 70))%N then Some (c - 55)%N
  else None.

(** The character a two-character escape stands for. *)
Definition escape (c : N) : option N :=
  match c with
  | 34%N => Some 34%N     (* quotation mark *)
  | 92%N => Some 92%N     (* reverse solidus *)
  | 47%N => Some 47%N     (* solidus *)
  | 98%N => Some 8%N      (* b: backspace *)
  | 102%N => Some 12%N    (* f: form feed *)
  | 110%N => Some 10%N    (* n: line feed *)
  | 114%N => Some 13%N    (* r: carriage return *)
  | 116%N => Some 9%N     (* t: tab *)
  | _ => None
  end.

(** The characters of a string, after its opening quote, up to and
    including the closing quote. *)
Fixpoint string_body (s acc : jsstring) : option (jsstring * jsstring) :=
  match s with
  | [] => None
  | c :: r =>
    if (c =? 34)%N then Some (rev acc, r)
    else if (c =? 92)%N then
      match r with
      | [] => None
      | e :: r' =>
        if (e =? 117)%N then
          match r' with
          | h1 :: h2 :: h3 :: h4 :: r'' =>
            match hex h1, hex h2, hex h3, hex h4 with
            | Some a, Some b, Some c', Some d =>
              string_body r'' ((((a * 16 + b) * 16 + c') * 16 + d)%N :: acc)
            | _, _, _, _ => None
            end
          | _ => None
          end
        else
          match escape e with
          | Some x => string_body r' (x :: acc)
          | None => None
          end
      end
    else if (c <? 32)%N then None
    else string_body r (c :: acc)
  end.

Fixpoint digits (s : jsstring) : jsstring * jsstring :=
  match s with
  | c :: r =>
    if is_digit c then let '(ds, r') := digits r in (c :: ds, r') else ([], s)
  | [] => ([], [])
  end.

Definition int_part (s : jsstring) : option (jsstring * jsstring) :=
  match s with
  | c :: r =>
    if (c =? 48)%N then Some ([c], r)
    else if is_digit c then let '(ds, r') := digits r in Some (c :: ds, r')
    else None
  | [] => None
  end.

(** [expect c s]: [s] without its first character, which is [c]. *)
Definition expect (c : N) (s : jsstring) : option jsstring :=
  match s with
  | d :: r => if (d =? c)%N then Some r else None
  | [] => None
  end.

Definition frac_part (s : jsstring) : option (jsstring * jsstring) :=
  match expect 46 s with
  | Some r =>
    match digits r with
    | ([], _) => None
    | (ds, r') => Some (46%N :: ds, r')
    end
  | None => Some ([], s)
  end.

Definition exp_digits (mark : jsstring) (s : jsstring)
  : option (jsstring * jsstring) :=
  match digits s with
  | ([], _) => None
  | (ds, r') => Some (mark ++ ds, r')
  end.

Definition exp_part (s : jsstring) : option (jsstring * jsstring) :=
  match s with
  | e :: r =>
    if ((e =? 101) || (e =? 69))%N then
      match r with
      | sg :: r' =>
        if ((sg =? 43) || (sg =? 45))%N then exp_digits [e; sg] r'
        else exp_digits [e] r
      | [] => None
      end
    else Some ([], s)
  | [] => Some ([], [])
  end.

Definition number_lexeme (s : jsstring) : option (jsstring * jsstring) :=
  let '(sign, s0) :=
    match expect 45 s with
    | Some r => ([45%N], r)
    | None => ([], s)
    end in
  '(i, s1) ← int_part s0;
  '(f, s2) ← frac_part s1;
  '(e, s3) ← exp_part s2;
  Some (sign ++ i ++ f ++ e, s3).

(** [literal w s]: [s] without its prefix [w]. *)
Fixpoint literal (w s : jsstring) : option jsstring :=
  match w, s with
  | [], _ => Some s
  | a :: w', b :: s' => if (a =? b)%N then literal w' s' else None
  | _ :: _, [] => None
  end.

(** A value, the elements of an array after its bracket, and the members of
    an object after its brace.  [fuel] bounds the calls in a chain; a text
    of [n] characters needs no more than [2 * n + 2]. *)
Fixpoint value (fuel : nat) (s : jsstring) : option (json * jsstring) :=
  match fuel with
  | O => None
  | S fuel =>
    match skip_ws s with
    | [] => None
    | c :: r =>
      if (c =? 91)%N then                               (* [ *)
        match expect 93 (skip_ws r) with
        | Some r' => Some (JArray [], r')
        | None => elements fuel r []
        end
      else if (c =? 123)%N then                         (* { *)
        match expect 125 (skip_ws r) with
        | Some r' => Some (JObject [], r')
        | None => members fuel r []
        end
      else if (c =? 34)%N then
        '(str, r') ← string_body r []; Some (JString str, r')
      else if (c =? 116)%N then
        r' ← literal (lit "rue") r; Some (JBool true, r')
      else if (c =? 102)%N then
        r' ← literal (lit "alse") r; Some (JBool false, r')
      else if (c =? 110)%N then
        r' ← literal (lit "ull") r; Some (JNull, r')
      else
        '(lx, r') ← number_lexeme (c :: r); Some (JNumber lx, r')
    end
  end
with elements (fuel : nat) (s : jsstring) (acc : list json)
  : option (json * jsstring) :=
  match fuel with
  | O => None
  | S fuel =>
    '(v, r) ← value fuel s;
    match expect 44 (skip_ws r) with                    (* , *)
    | Some r' => elements fuel r' (v :: acc)
    | None =>
      r' ← expect 93 (skip_ws r);                       (* ] *)
      Some (JArray (rev (v :: acc)), r')
    end
  end
with members (fuel : nat) (s : jsstring) (acc : list (jsstring * json))
  : option (json * jsstring) :=
  match fuel with
  | O => None
  | S fuel =>
    r ← expect 34 (skip_ws s);
    '(key, r1) ← string_body r [];
    r2 ← expect 58 (skip_ws r1);                        (* : *)
    '(v, r3) ← value fuel r2;
    match expect 44 (skip_ws r3) with                   (* , *)
    | Some r4 => members fuel r4 ((key, v) :: acc)
    | None =>
      r4 ← expect 125 (skip_ws r3);                     (* } *)
      Some (JObject (rev ((key, v) :: acc)), r4)
    end
  end.

(** [JSON.parse(text)]; [None] is a thrown [SyntaxError]. *)
Definition parse (text : jsstring) : option json :=
  '(v, r) ← value (2 * length text + 2) text;
  match skip_ws r with
  | [] => Some v
  | _ :: _ => None
  end.

End JSON.

(** ** The state of the component and of its platform *)

(** [MediaStreamTrack.readyState] *)
Inductive ReadyState := live | ended.

(** A [MediaStream]: the ready state of each of its tracks. *)
Abbreviation MediaStream := (list ReadyState).

(** [track.stop()]: the track ends; stopping an ended track changes
    nothing. *)
Definition track_stop (t : ReadyState) : ReadyState := ended.

(** The [<video>] element; [srcObject] names a stream of the device by its
    position among the streams the device has handed out. *)
Record HTMLVideoElement := { srcObject : option nat }.

(** A thrown value, as far as the handlers look at it: [err.message]. *)
Record JSError := { message : option jsstring }.

(** The text under a [localStorage] key.  The text that
    [JSON.stringify(updatedHistory)] produces is kept as the list it
    serializes. *)
Inductive StorageValue :=
| Text (s : jsstring)
| JSON_stringify (h : list AnalysisHistory).

(** A handler suspended at an [await], or a file read in progress, with
    what its closure holds. *)
Inductive Continuation :=
| startCamera_await
| reader_loading (history : list AnalysisHistory)
| handleAnalyze_await (image : option jsstring)
    (history : list AnalysisHistory)
| handleManualSearch_await (query : jsstring).

Record App := {
  (* useState *)
  isDarkMode : bool;
  isCameraActive : bool;
  capturedImage : option jsstring;
  isAnalyzing : bool;
  foodData : option FoodData;
  error : option jsstring;
  history : list AnalysisHistory;
  showHistory : bool;
  manualInput : jsstring;
  (* useRef: [videoRef.current]; [canvasRef.current] is always mounted *)
  videoRef : option HTMLVideoElement;
  (* platform *)
  streams : list MediaStream;
  localStorage : gmap jsstring StorageValue;
  darkClass : bool;
  pending : list Continuation
}.

Definition initial : App := {|
  isDarkMode := false;
  isCameraActive := false;
  capturedImage := None;
  isAnalyzing := false;
  foodData := None;
  error := None;
  history := [];
  showHistory := false;
  manualInput := [];
  videoRef := None;
  streams := [];
  localStorage := ∅;
  darkClass := false;
  pending := []
|}.

Definition setIsDarkMode (v : bool) (s : App) : App :=
  {| isDarkMode := v; isCameraActive := isCameraActive s;
     capturedImage := capturedImage s; isAnalyzing := isAnalyzing s;
     foodData := foodData s; error := error s; history := history s;
     showHistory := showHistory s; manualInput := manualInput s;
     videoRef := videoRef s; streams := streams s;
     localStorage := localStorage s; darkClass := darkClass s;
     pending := pending s |}.

Definition setIsCameraActive (v : bool) (s : App) : App :=
  {| isDarkMode := isDarkMode s; isCameraActive := v;
     capturedImage := capturedImage s; isAnalyzing := isAnalyzing s;
     foodData := foodData s; error := error s; history := history s;
     showHistory := showHistory s; manualInput := manualInput s;
     videoRef := videoRef s; streams := streams s;
     localStorage := localStorage s; darkClass := darkClass s;
     pending := pending s |}.

Definition setCapturedImage (v : option jsstring) (s : App) : App :=
  {| isDarkMode := isDarkMode s; isCameraActive := isCameraActive s;
     capturedImage := v; isAnalyzing := isAnalyzing s;
     foodData := foodData s; error := error s; history := history s;
     showHistory := showHistory s; manualInput := manualInput s;
     videoRef := videoRef s; streams := streams s;
     localStorage := localStorage s; darkClass := darkClass s;
     pending := pending s |}.

Definition setIsAnalyzing (v : bool) (s : App) : App :=
  {| isDarkMode := isDarkMode s; isCameraActive := isCameraActive s;
     capturedImage := capturedImage s; isAnalyzing := v;
     foodData := foodData s; error := error s; history := history s;
     showHistory := showHistory s; manualInput := manualInput s;
     videoRef := videoRef s; streams := streams s;
     localStorage := localStorage s; darkClass := darkClass s;
     pending := pending s |}.

Definition setFoodData (v : option FoodData) (s : App) : App :=
  {| isDarkMode := isDarkMode s; isCameraActive := isCameraActive s;
     capturedImage := capturedImage s; isAnalyzing := isAnalyzing s;
     foodData := v; error := error s; history := history s;
     showHistory := showHistory s; manualInput := manualInput s;
     videoRef := videoRef s; streams := streams s;
     localStorage := localStorage s; darkClass := darkClass s;
     pending := pending s |}.

Definition setError (v : option jsstring) (s : App) : App :=
  {| isDarkMode := isDarkMode s; isCameraActive := isCameraActive s;
     capturedImage := capturedImage s; isAnalyzing := isAnalyzing s;
     foodData := foodData s; error := v; history := history s;
     showHistory := showHistory s; manualInput := manualInput s;
     videoRef := videoRef s; streams := streams s;
     localStorage := localStorage s; darkClass := darkClass s;
     pending := pending s |}.

Definition setHistory (v : list AnalysisHistory) (s : App) : App :=
  {| isDarkMode := isDarkMode s; isCameraActive := isCameraActive s;
     capturedImage := capturedImage s; isAnalyzing := isAnalyzing s;
     foodData := foodData s; error := error s; history := v;
     showHistory := showHistory s; manualInput := manualInput s;
     videoRef := videoRef s; streams := streams s;
     localStorage := localStorage s; darkClass := darkClass s;
     pending := pending s |}.

Definition setShowHistory (v : bool) (s : App) : App :=
  {| isDarkMode := isDarkMode s; isCameraActive := isCameraActive s;
     capturedImage := capturedImage s; isAnalyzing := isAnalyzing s;
     foodData := foodData s; error := error s; history := history s;
     showHistory := v; manualInput := manualInput s;
     videoRef := videoRef s; streams := streams s;
     localStorage := localStorage s; darkClass := darkClass s;
     pending := pending s |}.

Definition setManualInput (v : jsstring) (s : App) : App :=
  {| isDarkMode := isDarkMode s; isCameraActive := isCameraActive s;
     capturedImage := capturedImage s; isAnalyzing := isAnalyzing s;
     foodData := foodData s; error := error s; history := history s;
     showHistory := showHistory s; manualInput := v;
     videoRef := videoRef s; streams := streams s;
     localStorage := localStorage s; darkClass := darkClass s;
     pending := pending s |}.

Definition set_videoRef (v : option HTMLVideoElement) (s : App) : App :=
  {| isDarkMode := isDarkMode s; isCameraActive := isCameraActive s;
     capturedImage := capturedImage s; isAnalyzing := isAnalyzing s;
     foodData := foodData s; error := error s; history := history s;
     showHistory := showHistory s; manualInput := manualInput s;
     videoRef := v; streams := streams s;
     localStorage := localStorage s; darkClass := darkClass s;
     pending := pending s |}.

Definition set_streams (v : list MediaStream) (s : App) : App :=
  {| isDarkMode := isDarkMode s; isCameraActive := isCameraActive s;
     capturedImage := capturedImage s; isAnalyzing := isAnalyzing s;
     foodData := foodData s; error := error s; history := history s;
     showHistory := showHistory s; manualInput := manualInput s;
     videoRef := videoRef s; streams := v;
     localStorage := localStorage s; darkClass := darkClass s;
     pending := pending s |}.

(** [localStorage.setItem(key, value)] *)
Definition setItem (key : jsstring) (value : StorageValue) (s : App) : App :=
  {| isDarkMode := isDarkMode s; isCameraActive := isCameraActive s;
     capturedImage := capturedImage s; isAnalyzing := isAnalyzing s;
     foodData := foodData s; error := error s; history := history s;
     showHistory := showHistory s; manualInput := manualInput s;
     videoRef := videoRef s; streams := streams s;
     localStorage := <[key := value]> (localStorage s);
     darkClass := darkClass s; pending := pending s |}.

(** [document.documentElement.classList.add('dark')] and [.remove('dark')] *)
Definition set_darkClass (v : bool) (s : App) : App :=
  {| isDarkMode := isDarkMode s; isCameraActive := isCameraActive s;
     capturedImage := capturedImage s; isAnalyzing := isAnalyzing s;
     foodData := foodData s; error := error s; history := history s;
     showHistory := showHistory s; manualInput := manualInput s;
     videoRef := videoRef s; streams := streams s;
     localStorage := localStorage s; darkClass := v;
     pending := pending s |}.

Definition set_pending (v : list Continuation) (s : App) : App :=
  {| isDarkMode := isDarkMode s; isCameraActive := isCameraActive s;
     capturedImage := capturedImage s; isAnalyzing := isAnalyzing s;
     foodData := foodData s; error := error s; history := history s;
     showHistory := showHistory s; manualInput := manualInput s;
     videoRef := videoRef s; streams := streams s;
     localStorage := localStorage s; darkClass := darkClass s;
     pending := v |}.

(** The handler reaches an [await] (or starts a file read): what is left of
    it joins the continuations the platform will resume. *)
Definition suspend (k : Continuation) (s : App) : App :=
  set_pending (pending s ++ [k]) s.

(** Statements in sequence. *)
Notation "s ▷ f" := (f s) (at level 45, left associativity, only parsing).

(** ** The handlers of [App] *)

Definition history_key : jsstring := lit "nutrilens_history".
Definition theme_key : jsstring := lit "nutrilens_theme".

(** [toggleTheme]. [setItem_throws] is the error [localStorage.setItem]
    throws, if it does: nothing catches it, and what the handler did before
    the call stands. *)
Definition toggleTheme (setItem_throws : option JSError) (s : App) : App :=
  let s' := s ▷ setIsDarkMode (negb (isDarkMode s)) in
  if negb (isDarkMode s) then
    let s'' := s' ▷ set_darkClass true in
    match setItem_throws with
    | None => s'' ▷ setItem theme_key (Text (lit "dark"))
    | Some _ => s''
    end
  else
    let s'' := s' ▷ set_darkClass false in
    match setItem_throws with
    | None => s'' ▷ setItem theme_key (Text (lit "light"))
    | Some _ => s''
    end.

(** [startCamera], up to its [await navigator.mediaDevices.getUserMedia]. *)
Definition startCamera (s : App) : App :=
  s ▷ setError None
    ▷ setIsCameraActive true
    ▷ setCapturedImage None
    ▷ setFoodData None
    ▷ suspend startCamera_await.

(** The device grants the request: [getUserMedia({ video })] resolves with a
    new stream of one live video track. *)
Definition getUserMedia_grant (s : App) : nat * App :=
  (length (streams s), set_streams (streams s ++ [[live]]) s).

(** [startCamera] after the [await], with the stream it was granted. *)
Definition startCamera_resolved (stream : nat) (s : App) : App :=
  match videoRef s with
  | Some _ => s ▷ set_videoRef (Some {| srcObject := Some stream |})
  | None => s
  end.

(** The [catch] of [startCamera]. *)
Definition startCamera_rejected (s : App) : App :=
  s ▷ setError
        (Some (lit "Unable to access camera. Please check permissions."))
    ▷ setIsCameraActive false.

Definition stopCamera (s : App) : App :=
  (match videoRef s with
   | Some video =>
     match srcObject video with
     | Some stream =>
       s ▷ set_streams (alter (fmap track_stop) stream (streams s))
     | None => s
     end
   | None => s
   end) ▷ setIsCameraActive false.

(** [handleAnalyze(image)], up to its [await analyzeFoodImage(image)].
    [hist] is the [history] of the render that created the closure; [image]
    is [None] when the caller passes [null] (an upload that was not read). *)
Definition handleAnalyze (hist : list AnalysisHistory)
    (image : option jsstring)
    (s : App) : App :=
  s ▷ setIsAnalyzing true
    ▷ setError None
    ▷ suspend (handleAnalyze_await image hist).

Definition newHistory (image : option jsstring) (result : FoodData)
    (now_id now_ts : Z) : AnalysisHistory :=
  {| id := toString now_id; timestamp := now_ts;
     imageUrl := image; data := result |}.

(** [handleAnalyze] after [analyzeFoodImage] resolved with [result].
    [now_id] and [now_ts] are what the two calls of [Date.now()] return;
    [setItem_throws] is the error [localStorage.setItem] throws, if it does
    (the quota is exceeded). *)
Definition handleAnalyze_resolved (hist : list AnalysisHistory)
    (image : option jsstring) (result : FoodData) (now_id now_ts : Z)
    (setItem_throws : option JSError) (s : App) : App :=
  let updatedHistory := take 20 (newHistory image result now_id now_ts :: hist) in
  let s' := s ▷ setFoodData (Some result) ▷ setHistory updatedHistory in
  match setItem_throws with
  | None =>
    s' ▷ setItem history_key (JSON_stringify updatedHistory)
       ▷ setIsAnalyzing false
  | Some err =>
    s' ▷ setError (Some (or_else (message err)
                     (lit "Failed to analyze image. Please try again.")))
       ▷ setIsAnalyzing false
  end.

(** [handleAnalyze] after [analyzeFoodImage] rejected with [err]. *)
Definition handleAnalyze_rejected (err : JSError) (s : App) : App :=
  s ▷ setError (Some (or_else (message err)
                  (lit "Failed to analyze image. Please try again.")))
    ▷ setIsAnalyzing false.

(** [capturePhoto]. [dataUrl] is what [canvas.toDataURL('image/jpeg', 0.8)]
    returns for the frame, [context] whether [getContext('2d')] returned a
    context. *)
Definition capturePhoto (dataUrl : jsstring) (context : bool) (s : App)
  : App :=
  match videoRef s with
  | Some _ =>
    if context then
      s ▷ setCapturedImage (Some dataUrl)
        ▷ stopCamera
        ▷ handleAnalyze (history s) (Some dataUrl)
    else s
  | None => s
  end.

(** [handleFileUpload]; [file] tells whether [e.target.files?.[0]] is a
    file.  The reader's [onloadend] closes over this render's
    [handleAnalyze]. *)
Definition handleFileUpload (file : bool) (s : App) : App :=
  if file then s ▷ suspend (reader_loading (history s)) else s.

(** [reader.onloadend]. [base64String] is [reader.result as string]: the
    data URL of the file, or [null] ([None]) when the read ended in an
    error. *)
Definition reader_onloadend (hist : list AnalysisHistory)
    (base64String : option jsstring) (s : App) : App :=
  s ▷ setCapturedImage base64String
    ▷ setFoodData None
    ▷ handleAnalyze hist base64String.

(** [handleManualSearch], up to its [await analyzeFoodByName(manualInput)]. *)
Definition handleManualSearch (s : App) : App :=
  if negb (truthy_string (trim (manualInput s))) then s
  else
    s ▷ setIsAnalyzing true
      ▷ setError None
      ▷ setCapturedImage None
      ▷ suspend (handleManualSearch_await (manualInput s)).

Definition handleManualSearch_resolved (result : FoodData) (s : App) : App :=
  s ▷ setFoodData (Some result) ▷ setIsAnalyzing false.

Definition handleManualSearch_rejected (err : JSError) (s : App) : App :=
  s ▷ setError (Some (or_else (message err) (lit "Search failed.")))
    ▷ setIsAnalyzing false.

(** The inline handlers of the markup. *)

(** Dismiss, in the error banner *)
Definition dismiss (s : App) : App := s ▷ setError None.

(** Retake Photo *)
Definition retake (s : App) : App :=
  s ▷ setCapturedImage None ▷ setFoodData None ▷ startCamera.

(** New Scan *)
Definition newScan (s : App) : App :=
  s ▷ setFoodData None ▷ setCapturedImage None ▷ startCamera.

(** The reset button of the action bar *)
Definition clear (s : App) : App :=
  s ▷ setFoodData None ▷ setCapturedImage None.

(** A row of the history panel *)
Definition selectHistory (item : AnalysisHistory) (s : App) : App :=
  s ▷ setFoodData (Some (data item))
    ▷ setCapturedImage (imageUrl item)
    ▷ setShowHistory false.

(** ** What is rendered

    The conditions under which the markup shows each part. *)

Definition isSome {A} (o : option A) : bool :=
  match o with Some _ => true | None => false end.

Definition error_banner (s : App) : bool := truthy (error s).

Definition hero_view (s : App) : bool :=
  negb (isSome (foodData s)) && negb (isAnalyzing s)
  && negb (isCameraActive s) && negb (truthy (capturedImage s)).

Definition camera_view (s : App) : bool := isCameraActive s.

Definition captured_view (s : App) : bool :=
  truthy (capturedImage s) && negb (isSome (foodData s))
  && negb (isAnalyzing s).

Definition analyzing_view (s : App) : bool := isAnalyzing s.

Definition results_view (s : App) : bool :=
  isSome (foodData s) && negb (isAnalyzing s).

Definition action_bar (s : App) : bool :=
  negb (isCameraActive s) && negb (isAnalyzing s).

(** After a handler has run React renders again: the [<video>] element is
    in the document exactly while [isCameraActive], and a newly mounted one
    has no [srcObject]. *)
Definition commit (s : App) : App :=
  if isCameraActive s then
    match videoRef s with
    | Some _ => s
    | None => s ▷ set_videoRef (Some {| srcObject := None |})
    end
  else s ▷ set_videoRef None.

(** ** The effect that loads the persisted state at mount *)

(** What the effect has asked of React and of the document when it
    returns. *)
Inductive Update :=
| SetHistory (v : JSON.json)
| SetIsDarkMode (v : bool)
| AddDarkClass.

(** How the effect ends: it returns, or an exception leaves it. *)
Inductive Completion :=
| Returns (updates : list Update)
| Throws_SyntaxError.

(** The body of the [useEffect] under the comment [// Persistence];
    [store] is [localStorage] as the component finds it. *)
Definition persistence_effect (store : gmap jsstring jsstring) : Completion :=
  let savedHistory := store !! history_key in
  let after_history :=
    match savedHistory with
    | Some text =>
      if truthy_string text then
        match JSON.parse text with
        | Some v => Returns [SetHistory v]
        | None => Throws_SyntaxError
        end
      else Returns []
    | None => Returns []
    end in
  match after_history with
  | Throws_SyntaxError => Throws_SyntaxError
  | Returns updates =>
    let savedTheme := store !! theme_key in
    if decide (savedTheme = Some (lit "dark")) then
      Returns (updates ++ [SetIsDarkMode true; AddDarkClass])
    else Returns updates
  end.

(** The history the component holds once the effect has returned: the
    initial [[]] of [useState] unless [setHistory] was called. *)
Definition loaded_history (updates : list Update) : option JSON.json :=
  last (omap (fun u => match u with SetHistory v => Some v | _ => None end)
          updates).

(** ** Events

    What the user and the platform can do to the component. *)

Inductive Outcome :=
| granted
| denied
| loaded (result : option jsstring)
| image_analyzed (result : FoodData) (now_id now_ts : Z)
    (setItem_throws : option JSError)
| name_analyzed (result : FoodData)
| failed (err : JSError).

Inductive Event :=
| HistoryButtonClick
| ThemeButtonClick (setItem_throws : option JSError)
| DismissClick
| HistoryCloseClick
| HistoryItemClick (i : nat)
| ManualInputChange (value : jsstring)
| SearchSubmit
| CameraCancelClick
| CaptureClick (dataUrl : jsstring) (context : bool)
| RetakeClick
| NewScanClick
| FileChange (file : bool)
| ScanFoodClick
| ClearClick
| Settle (i : nat) (o : Outcome).

(** The continuation [k] is resumed with outcome [o]. *)
Definition resume (k : Continuation) (o : Outcome) (s : App) : option App :=
  match k, o with
  | startCamera_await, granted =>
    let '(stream, s') := getUserMedia_grant s in
    Some (startCamera_resolved stream s')
  | startCamera_await, denied => Some (startCamera_rejected s)
  | reader_loading hist, loaded result => Some (reader_onloadend hist result s)
  | handleAnalyze_await image hist,
    image_analyzed result now_id now_ts setItem_throws =>
    Some (handleAnalyze_resolved hist image result now_id now_ts
            setItem_throws s)
  | handleAnalyze_await _ _, failed err => Some (handleAnalyze_rejected err s)
  | handleManualSearch_await _, name_analyzed result =>
    Some (handleManualSearch_resolved result s)
  | handleManualSearch_await _, failed err =>
    Some (handleManualSearch_rejected err s)
  | _, _ => None
  end.

Definition guard (b : bool) (s : App) : option App :=
  if b then Some s else None.

(** The handler an event runs, where the markup offers it. *)
Definition handle (e : Event) (s : App) : option App :=
  match e with
  | HistoryButtonClick => Some (s ▷ setShowHistory (negb (showHistory s)))
  | ThemeButtonClick setItem_throws => Some (toggleTheme setItem_throws s)
  | DismissClick => guard (error_banner s) (dismiss s)
  | HistoryCloseClick => guard (showHistory s) (s ▷ setShowHistory false)
  | HistoryItemClick i =>
    item ← history s !! i;
    guard (showHistory s) (selectHistory item s)
  | ManualInputChange value => guard (hero_view s) (s ▷ setManualInput value)
  | SearchSubmit => guard (hero_view s) (handleManualSearch s)
  | CameraCancelClick => guard (camera_view s) (stopCamera s)
  | CaptureClick dataUrl context =>
    guard (camera_view s) (capturePhoto dataUrl context s)
  | RetakeClick => guard (captured_view s) (retake s)
  | NewScanClick => guard (results_view s) (newScan s)
  | FileChange file => guard (action_bar s) (handleFileUpload file s)
  | ScanFoodClick => guard (action_bar s) (startCamera s)
  | ClearClick => guard (action_bar s && isSome (foodData s)) (clear s)
  | Settle i o =>
    k ← pending s !! i;
    resume k o (s ▷ set_pending (delete i (pending s)))
  end.

(** One event: its handler, then the render. *)
Definition dispatch (s : App) (e : Event) : option App :=
  commit <$> handle e s.

Fixpoint run (s : App) (es : list Event) : option App :=
  match es with
  | [] => Some s
  | e :: es' => s' ← dispatch s e; run s' es'
  end.

Inductive reachable : App → Prop :=
| reachable_initial : reachable initial
| reachable_dispatch s e s' :
    reachable s → dispatch s e = Some s' → reachable s'.

(** ** Vocabulary of the properties *)

(** A string of white space only (the empty string included). *)
Definition blank (s : jsstring) : Prop :=
  Forall (λ c, is_white_space c = true) s.

(** A stream is live while one of its tracks is. *)
Definition is_live (t : ReadyState) : bool :=
  match t with live => true | ended => false end.

Definition stream_live (stream : MediaStream) : bool :=
  existsb is_live stream.

(** The stream the video element shows: [videoRef.current.srcObject], when
    both are there. *)
Definition attached_stream (s : App) : option nat :=
  videoRef s ≫= srcObject.

Definition live_streams (s : App) : nat :=
  length (filter (λ stream, stream_live stream = true) (streams s)).

(** The state is as React has rendered it: the handlers run between two
    renders, and find [videoRef] as the last one left it. *)
Definition rendered (s : App) : Prop := commit s = s.

(** How many of the Captured, Analyzing and Result parts are shown. *)
Definition shown_modes (s : App) : nat :=
  length (filter (λ b, b = true)
            [captured_view s; analyzing_view s; results_view s]).

(** An image analysis that succeeds, with what the platform answers on its
    way. *)
Inductive Source := by_upload | by_camera.

Record Shot := {
  source : Source;
  image : jsstring;
  result : FoodData;
  now_id : Z;
  now_ts : Z;
  setItem_throws : option JSError
}.

Definition entry_of (x : Shot) : AnalysisHistory :=
  newHistory (Some (image x)) (result x) (now_id x) (now_ts x).

(** The events of an image analysis from the action bar to the answer [o]
    of the oracle, where [n] requests are pending at its start and nothing
    else happens on its way. *)
Definition image_events (n : nat) (src : Source) (img : jsstring)
    (o : Outcome) : list Event :=
  match src with
  | by_upload => [FileChange true; Settle n (loaded (Some img)); Settle n o]
  | by_camera =>
    [ScanFoodClick; Settle n granted; CaptureClick img true; Settle n o]
  end.

Definition shot_events (x : Shot) : list Event :=
  image_events 0 (source x) (image x)
    (image_analyzed (result x) (now_id x) (now_ts x) (setItem_throws x)).

(** A record the oracle may answer with. *)
Definition paneer_tikka : FoodData := {|
  food_name := lit "Paneer Tikka";
  confidence := lit "High";
  nutrition := {| calories := 250 # 1; protein := 37 # 2; carbs := 9 # 1;
                  fat := 16 # 1; fiber := None; sugar := None;
                  vitamins := None |};
  ingredients := [lit "paneer"; lit "yogurt"];
  recipe := [{| step := 1 # 1; instruction := lit "Marinate and grill." |}];
  allergens := [lit "milk"];
  serving_size := lit "1 plate";
  cuisine := lit "Indian";
  classification := lit "Veg";
  tips := None
|}.

(** A suspended search whose query is not blank. *)
Definition query_not_blank (k : Continuation) : Prop :=
  ∀ q, k = handleManualSearch_await q → trim q ≠ [].

(** The message [handleAnalyze] shows for the thrown value [err]. *)
Definition analyze_failed_message (err : JSError) : jsstring :=
  or_else (message err) (lit "Failed to analyze image. Please try again.").

(** The events that fill the history with one entry, open the camera, and
    show that entry from the history panel next to the camera view. *)
Definition camera_with_history_entry : list Event :=
  image_events 0 by_upload (lit "data:image/png;base64,iVBOR")
    (image_analyzed paneer_tikka 1730505600000 1730505600000 None)
  ++ [ScanFoodClick; Settle 0 granted; HistoryButtonClick; HistoryItemClick 0].

(** The [n]-th photo of a run of uploads, analyzed at time [n]. *)
Definition shot_at (n : Z) : Shot := {|
  source := by_upload;
  image := lit "data:image/png;base64,iVBOR";
  result := paneer_tikka;
  now_id := n;
  now_ts := n;
  setItem_throws := None
|}.

Definition twenty_one_shots : list Shot := shot_at <$> seqZ 1 21.

(** ** Vocabulary of the further properties *)

(** The dark class of the document and the stored theme agree with
    [isDarkMode]; nothing is stored until the theme is first toggled. *)
Definition theme_in_step (s : App) : Prop :=
  darkClass s = isDarkMode s
  ∧ (localStorage s !! theme_key = None ∧ isDarkMode s = false
     ∨ localStorage s !! theme_key
       = Some (Text (if isDarkMode s then lit "dark" else lit "light"))).

(** The event is not a toggle of the theme whose write to [localStorage]
    throws. *)
Definition theme_write_accepted (e : Event) : bool :=
  match e with
  | ThemeButtonClick (Some _) => false
  | _ => true
  end.

(** Whether the load effect asks for the dark mode. *)
Definition loads_dark (updates : list Update) : bool :=
  existsb (λ u, match u with SetIsDarkMode true => true | _ => false end)
    updates.

(** What is stored under the history key is the list in memory; nothing is
    stored while the list is still empty. *)
Definition history_persisted (s : App) : Prop :=
  (localStorage s !! history_key = None ∧ history s = [])
  ∨ localStorage s !! history_key = Some (JSON_stringify (history s)).

(** The event is not an analysis whose write to [localStorage] throws. *)
Definition storage_accepts (e : Event) : bool :=
  match e with
  | Settle _ (image_analyzed _ _ _ (Some _)) => false
  | _ => true
  end.

(** A request to the oracle, by image or by name. *)
Definition analysis_request (k : Continuation) : bool :=
  match k with
  | handleAnalyze_await _ _ | handleManualSearch_await _ => true
  | _ => false
  end.

(** The stream [i] exists, the video element does not show it, and its
    tracks are those of [strs]. *)
Definition detached_as (strs : list MediaStream) (i : nat) (s : App) : Prop :=
  (i < length (streams s))%nat
  ∧ attached_stream s ≠ Some i
  ∧ streams s !! i = strs !! i.

(** The message [handleManualSearch] shows for the thrown value [err]. *)
Definition search_failed_message (err : JSError) : jsstring :=
  or_else (message err) (lit "Search failed.").

Definition camera_denied_message : jsstring :=
  lit "Unable to access camera. Please check permissions.".

(** * Properties *)

(** ** Strings *)

Lemma trim_start_blank (s : jsstring) : blank s → trim_start s = [].
Proof.
  induction 1 as [|c r Hc _ IH]; simpl; [done|]. by rewrite Hc.
Qed.

Lemma trim_blank (s : jsstring) : blank s → trim s = [].
Proof. intros H. unfold trim. by rewrite (trim_start_blank s H). Qed.

Lemma or_else_truthy (a : option jsstring) (b : jsstring) :
  truthy_string b = true → truthy_string (or_else a b) = true.
Proof.
  intros Hb. destruct a as [m|]; simpl; [|done].
  destruct (truthy_string m) eqn:Hm; done.
Qed.

(** ** The parser's fuel

    Every step of the parser consumes text, so the fuel [JSON.parse] starts
    with is never what makes it fail: more fuel gives the same answer. *)

Section Fuel.
Import JSON.
Local Open Scope nat_scope.

Lemma skip_ws_length (s : jsstring) : length (skip_ws s) ≤ length s.
Proof.
  induction s as [|c r IH]; simpl; [lia|]. destruct (is_ws c); simpl; lia.
Qed.

Lemma expect_length (c : N) (s r : jsstring) :
  expect c s = Some r → length s = S (length r).
Proof.
  destruct s as [|d s]; simpl; [done|].
  destruct (d =? c)%N; [|done]. by intros [= ->].
Qed.

Lemma string_body_length (s acc str r : jsstring) :
  string_body s acc = Some (str, r) → length r < length s.
Proof.
  remember (length s) as n eqn:Hn. revert s acc Hn.
  induction n as [n IH] using lt_wf_ind. intros s acc Hn.
  destruct s as [|c s]; simpl; [done|].
  destruct (c =? 34)%N; [intros [= _ ->]; simpl in *; lia|].
  destruct (c =? 92)%N.
  - destruct s as [|e s]; [done|].
    destruct (e =? 117)%N.
    + destruct s as [|h1 [|h2 [|h3 [|h4 s]]]]; try done.
      destruct (hex h1), (hex h2), (hex h3), (hex h4); try done.
      intros H. apply (IH (length s)) in H; simpl in *; lia.
    + destruct (escape e); [|done].
      intros H. apply (IH (length s)) in H; simpl in *; lia.
  - destruct (c <? 32)%N; [done|].
    intros H. apply (IH (length s)) in H; simpl in *; lia.
Qed.

Lemma digits_length (s ds r : jsstring) :
  digits s = (ds, r) → length r ≤ length s.
Proof.
  revert ds r. induction s as [|c s IH]; simpl; intros ds r.
  - intros [= _ <-]. simpl. lia.
  - destruct (is_digit c).
    + destruct (digits s) as [ds' r'] eqn:E. intros [= _ <-].
      specialize (IH _ _ eq_refl). lia.
    + intros [= _ <-]. simpl. lia.
Qed.

Lemma int_part_length (s i r : jsstring) :
  int_part s = Some (i, r) → length r < length s.
Proof.
  destruct s as [|c s]; simpl; [done|].
  destruct (c =? 48)%N; [intros [= _ <-]; lia|].
  destruct (is_digit c); [|done].
  destruct (digits s) as [ds r'] eqn:E. intros [= _ <-].
  apply digits_length in E. lia.
Qed.

Lemma frac_part_length (s f r : jsstring) :
  frac_part s = Some (f, r) → length r ≤ length s.
Proof.
  unfold frac_part. destruct (expect 46 s) as [t|] eqn:E.
  - apply expect_length in E.
    destruct (digits t) as [[|d ds] r'] eqn:Ed; [done|].
    intros [= _ <-]. apply digits_length in Ed. lia.
  - intros [= _ <-]. lia.
Qed.

Lemma exp_digits_length (mark s e r : jsstring) :
  exp_digits mark s = Some (e, r) → length r ≤ length s.
Proof.
  unfold exp_digits. destruct (digits s) as [[|d ds] r'] eqn:Ed; [done|].
  intros [= _ <-]. by apply digits_length in Ed.
Qed.

Lemma exp_part_length (s e r : jsstring) :
  exp_part s = Some (e, r) → length r ≤ length s.
Proof.
  destruct s as [|c s]; simpl; [intros [= _ <-]; simpl; lia|].
  destruct ((c =? 101) || (c =? 69))%N; [|intros [= _ <-]; simpl; lia].
  destruct s as [|sg s]; [done|].
  destruct ((sg =? 43) || (sg =? 45))%N; intros H;
    apply exp_digits_length in H; simpl in *; lia.
Qed.

Lemma number_lexeme_length (s lx r : jsstring) :
  number_lexeme s = Some (lx, r) → length r < length s.
Proof.
  unfold number_lexeme.
  assert (Hsign : ∀ sign s0,
            match expect 45 s with
            | Some t => ([45%N], t)
            | None => ([], s)
            end = (sign, s0) → length s0 ≤ length s).
  { intros sign s0. destruct (expect 45 s) as [t|] eqn:E; intros [= _ <-].
    - apply expect_length in E. lia.
    - lia. }
  destruct (match expect 45 s with
            | Some t => ([45%N], t) | None => ([], s) end)
    as [sign s0] eqn:E.
  specialize (Hsign _ _ eq_refl).
  destruct (int_part s0) as [[i s1]|] eqn:Ei; simpl; [|done].
  destruct (frac_part s1) as [[f s2]|] eqn:Ef; simpl; [|done].
  destruct (exp_part s2) as [[e s3]|] eqn:Ee; simpl; [|done].
  intros [= _ <-].
  apply int_part_length in Ei. apply frac_part_length in Ef.
  apply exp_part_length in Ee. lia.
Qed.

Lemma literal_length (w s r : jsstring) :
  literal w s = Some r → length r ≤ length s.
Proof.
  revert s. induction w as [|a w IH]; intros [|b s]; simpl; try done.
  - by intros [= <-].
  - by intros [= <-].
  - destruct (a =? b)%N; [|done]. intros H. apply IH in H. lia.
Qed.

Local Arguments literal : simpl never.
Local Arguments number_lexeme : simpl never.
Local Arguments string_body : simpl never.
Local Arguments skip_ws : simpl never.
Local Arguments expect : simpl never.

(** What is parsed is taken from the text. *)
Lemma parsers_consume (n : nat) :
  (∀ s v r, value n s = Some (v, r) → length r < length s)
  ∧ (∀ s acc v r, elements n s acc = Some (v, r) → length r < length s)
  ∧ (∀ s acc v r, members n s acc = Some (v, r) → length r < length s).
Proof.
  induction n as [|n (IHv & IHe & IHm)]; [by repeat split|].
  split; [|split].
  - intros s v r. simpl.
    pose proof (skip_ws_length s) as Hs.
    destruct (skip_ws s) as [|c t]; [done|]. simpl in Hs.
    pose proof (skip_ws_length t) as Ht.
    destruct (c =? 91)%N.
    { destruct (expect 93 (skip_ws t)) as [t'|] eqn:E.
      - apply expect_length in E. intros [= _ <-]. lia.
      - intros H. apply IHe in H. lia. }
    destruct (c =? 123)%N.
    { destruct (expect 125 (skip_ws t)) as [t'|] eqn:E.
      - apply expect_length in E. intros [= _ <-]. lia.
      - intros H. apply IHm in H. lia. }
    destruct (c =? 34)%N.
    { destruct (string_body t []) as [[str t']|] eqn:E; simpl; [|done].
      apply string_body_length in E. intros [= _ <-]. lia. }
    destruct (c =? 116)%N.
    { destruct (literal (lit "rue") t) as [t'|] eqn:E; simpl; [|done].
      apply literal_length in E. intros [= _ <-]. lia. }
    destruct (c =? 102)%N.
    { destruct (literal (lit "alse") t) as [t'|] eqn:E; simpl; [|done].
      apply literal_length in E. intros [= _ <-]. lia. }
    destruct (c =? 110)%N.
    { destruct (literal (lit "ull") t) as [t'|] eqn:E; simpl; [|done].
      apply literal_length in E. intros [= _ <-]. lia. }
    destruct (number_lexeme (c :: t)) as [[lx t']|] eqn:E; simpl; [|done].
    apply number_lexeme_length in E. intros [= _ <-]. simpl in E. lia.
  - intros s acc v r. simpl.
    destruct (value n s) as [[v1 r1]|] eqn:Ev; simpl; [|done].
    apply IHv in Ev. pose proof (skip_ws_length r1) as Hr1.
    destruct (expect 44 (skip_ws r1)) as [t|] eqn:E.
    + apply expect_length in E. intros H. apply IHe in H. lia.
    + destruct (expect 93 (skip_ws r1)) as [t|] eqn:E'; simpl; [|done].
      apply expect_length in E'. intros [= _ <-]. lia.
  - intros s acc v r. simpl.
    pose proof (skip_ws_length s) as Hs.
    destruct (expect 34 (skip_ws s)) as [t|] eqn:E; simpl; [|done].
    apply expect_length in E.
    destruct (string_body t []) as [[key r1]|] eqn:Ek; simpl; [|done].
    apply string_body_length in Ek. pose proof (skip_ws_length r1) as Hr1.
    destruct (expect 58 (skip_ws r1)) as [r2|] eqn:E2; simpl; [|done].
    apply expect_length in E2.
    destruct (value n r2) as [[v1 r3]|] eqn:Ev; simpl; [|done].
    apply IHv in Ev. pose proof (skip_ws_length r3) as Hr3.
    destruct (expect 44 (skip_ws r3)) as [r4|] eqn:E4.
    + apply expect_length in E4. intros H. apply IHm in H. lia.
    + destruct (expect 125 (skip_ws r3)) as [r4|] eqn:E5; simpl; [|done].
      apply expect_length in E5. intros [= _ <-]. lia.
Qed.

(** With twice the length of the text (and one more for a list), more fuel
    changes nothing. *)
Lemma fuel_enough (n : nat) :
  (∀ s m, 2 * length s < n → n ≤ m → value m s = value n s)
  ∧ (∀ s acc m, 2 * length s + 1 < n → n ≤ m →
       elements m s acc = elements n s acc)
  ∧ (∀ s acc m, 2 * length s + 1 < n → n ≤ m →
       members m s acc = members n s acc).
Proof.
  induction n as [|n (IHv & IHe & IHm)]; [repeat split; intros; lia|].
  split; [|split].
  - intros s [|m] Hs Hm; [lia|]. simpl.
    pose proof (skip_ws_length s) as Hws.
    destruct (skip_ws s) as [|c t]; [done|]. simpl in Hws.
    destruct (c =? 91)%N.
    { destruct (expect 93 (skip_ws t)); [done|]. apply IHe; lia. }
    destruct (c =? 123)%N; [|done].
    destruct (expect 125 (skip_ws t)); [done|]. apply IHm; lia.
  - intros s acc [|m] Hs Hm; [lia|]. simpl.
    rewrite (IHv s m) by lia.
    destruct (value n s) as [[v1 r1]|] eqn:Ev; simpl; [|done].
    apply (proj1 (parsers_consume n)) in Ev.
    pose proof (skip_ws_length r1) as Hr1.
    destruct (expect 44 (skip_ws r1)) as [t|] eqn:E; [|done].
    apply expect_length in E. apply IHe; lia.
  - intros s acc [|m] Hs Hm; [lia|]. simpl.
    pose proof (skip_ws_length s) as Hws.
    destruct (expect 34 (skip_ws s)) as [t|] eqn:E; simpl; [|done].
    apply expect_length in E.
    destruct (string_body t []) as [[key r1]|] eqn:Ek; simpl; [|done].
    apply string_body_length in Ek. pose proof (skip_ws_length r1) as Hr1.
    destruct (expect 58 (skip_ws r1)) as [r2|] eqn:E2; simpl; [|done].
    apply expect_length in E2.
    rewrite (IHv r2 m) by lia.
    destruct (value n r2) as [[v1 r3]|] eqn:Ev; simpl; [|done].
    apply (proj1 (parsers_consume n)) in Ev.
    pose proof (skip_ws_length r3) as Hr3.
    destruct (expect 44 (skip_ws r3)) as [r4|] eqn:E4; [|done].
    apply expect_length in E4. apply IHm; lia.
Qed.

Lemma parse_fuel (text : jsstring) (m : nat) :
  2 * length text + 2 ≤ m →
  value m text = value (2 * length text + 2) text.
Proof. intros Hm. apply (proj1 (fuel_enough (2 * length text + 2))); lia. Qed.

End Fuel.

(** ** The render *)

Lemma commit_idemp (s : App) : commit (commit s) = commit s.
Proof.
  destruct s as [? cam ? ? ? ? ? ? ? [v|] ? ? ? ?]; destruct cam; reflexivity.
Qed.

Lemma dispatch_rendered (s s' : App) (e : Event) :
  dispatch s e = Some s' → rendered s'.
Proof.
  unfold dispatch, rendered. intros H.
  destruct (handle e s) as [t|]; simplify_eq/=. apply commit_idemp.
Qed.

Lemma reachable_rendered (s : App) : reachable s → rendered s.
Proof. destruct 1; [reflexivity | by eapply dispatch_rendered]. Qed.

Lemma rendered_video (s : App) :
  rendered s → isCameraActive s = true → is_Some (videoRef s).
Proof.
  unfold rendered, commit. intros H Hc. rewrite Hc in H.
  destruct (videoRef s) as [v|] eqn:Hv; [by eexists|].
  apply (f_equal videoRef) in H. simpl in H. rewrite Hv in H. done.
Qed.

Lemma run_app (s : App) (es1 es2 : list Event) :
  run s (es1 ++ es2) = run s es1 ≫= λ s', run s' es2.
Proof.
  revert s. induction es1 as [|e es1 IH]; intros s; simpl; [done|].
  destruct (dispatch s e) as [s'|]; simpl; [apply IH | done].
Qed.

Lemma run_reachable (s s' : App) (es : list Event) :
  reachable s → run s es = Some s' → reachable s'.
Proof.
  revert s. induction es as [|e es IH]; intros s Hs; simpl.
  - by intros [= <-].
  - destruct (dispatch s e) as [t|] eqn:Ht; simpl; [|done].
    apply IH. by eapply reachable_dispatch.
Qed.

(** ** The camera *)

Lemma stop_tracks_idemp (i : nat) (l : list MediaStream) :
  alter (fmap track_stop) i (alter (fmap track_stop) i l)
  = alter (fmap track_stop) i l.
Proof.
  revert i. induction l as [|stream l IH]; intros [|i]; simpl; [done..| |].
  - f_equal. by rewrite <- list_fmap_compose.
  - f_equal. apply IH.
Qed.

Lemma stopCamera_twice (s : App) : stopCamera (stopCamera s) = stopCamera s.
Proof.
  destruct s as [? ? ? ? ? ? ? ? ? [[[i|]]|] ? ? ? ?];
    unfold stopCamera; simpl; try reflexivity.
  unfold setIsCameraActive, set_streams; simpl. f_equal.
  apply stop_tracks_idemp.
Qed.

Lemma stopCamera_after_render (s : App) :
  stopCamera (commit (stopCamera s)) = commit (stopCamera s).
Proof.
  destruct s as [? ? ? ? ? ? ? ? ? [[[i|]]|] ? ? ? ?]; reflexivity.
Qed.

(** C7. [stopCamera] is idempotent: run twice in a row, in the same render
    or with a render in between, it leaves the state (the tracks of the
    device included) as one run does; and where no stream is attached to
    the video element it leaves every stream of the device as it is. *)
Theorem stopCamera_idempotent (s : App) :
  stopCamera (stopCamera s) = stopCamera s
  ∧ stopCamera (commit (stopCamera s)) = commit (stopCamera s)
  ∧ (attached_stream s = None → streams (stopCamera s) = streams s).
Proof.
  split; [apply stopCamera_twice|].
  split; [apply stopCamera_after_render|].
  unfold attached_stream, stopCamera. intros Hnone.
  destruct (videoRef s) as [[[i|]]|]; simplify_eq/=; reflexivity.
Qed.

(** A camera view whose request the device has not answered yet, next to a
    live stream that is not attached: stopping leaves that stream live. *)
Lemma stopCamera_idempotent_witness :
  let s := set_streams [[live]] (commit (startCamera initial)) in
  attached_stream s = None
  ∧ streams (stopCamera s) = [[live]]
  ∧ stopCamera (stopCamera s) = stopCamera s.
Proof.
  intros s. split; [reflexivity|]. split.
  - apply (stopCamera_idempotent s). reflexivity.
  - apply (stopCamera_idempotent s).
Defined.

(** ** The search form *)

Lemma pending_commit (s : App) : pending (commit s) = pending s.
Proof. unfold commit. by repeat case_match. Qed.

Lemma history_commit (s : App) : history (commit s) = history s.
Proof. unfold commit. by repeat case_match. Qed.

Lemma query_not_blank_other (k : Continuation) :
  (∀ q, k ≠ handleManualSearch_await q) → query_not_blank k.
Proof. intros H q ->. by destruct (H q). Qed.

Lemma resume_pending (k : Continuation) (o : Outcome) (s t : App) :
  resume k o s = Some t →
  Forall query_not_blank (pending s) → Forall query_not_blank (pending t).
Proof.
  intros H Hs.
  destruct k, o; simpl in H; simplify_eq; try assumption.
  - unfold startCamera_resolved. by case_match.
  - simpl. apply Forall_app. split; [assumption|].
    constructor; [|constructor]. by apply query_not_blank_other.
  - by destruct setItem_throws0.
Qed.

Lemma handle_pending (e : Event) (s t : App) :
  handle e s = Some t →
  Forall query_not_blank (pending s) → Forall query_not_blank (pending t).
Proof.
  assert (Hnew : ∀ k l, (∀ q, k ≠ handleManualSearch_await q) →
            Forall query_not_blank l → Forall query_not_blank (l ++ [k])).
  { intros k l Hk Hl. apply Forall_app. split; [assumption|].
    constructor; [|constructor]. by apply query_not_blank_other. }
  intros H Hs.
  destruct e; simpl in H; unfold guard in H;
    try (apply bind_Some in H as (x & Hx & H));
    repeat (simplify_eq/= || case_match); try assumption.
  all: try (by apply Hnew).
  - unfold toggleTheme. by repeat case_match.
  - unfold handleManualSearch. case_match; [assumption|]. simpl.
    apply Forall_app. split; [assumption|].
    constructor; [|constructor]. intros q [= <-] Hq.
    by rewrite Hq in *.
  - unfold capturePhoto. repeat case_match; try assumption. simpl.
    repeat case_match; by apply Hnew.
  - unfold handleFileUpload. case_match; [by apply Hnew | assumption].
  - eapply resume_pending; [eassumption|]. simpl. by apply Forall_delete.
Qed.

Lemma reachable_pending (s : App) :
  reachable s → Forall query_not_blank (pending s).
Proof.
  induction 1 as [|s e s' _ IH Hd]; [constructor|].
  unfold dispatch in Hd.
  destruct (handle e s) as [t|] eqn:Ht; simplify_eq/=.
  rewrite pending_commit. by eapply handle_pending.
Qed.

(** C10. Where the search input is empty or all white space, submitting the
    form changes nothing of the state and issues no request; and in every
    reachable state, each request in flight to [analyzeFoodByName] carries
    a query that is not empty once trimmed. *)
Theorem blank_search_ignored :
  (∀ s : App, blank (manualInput s) →
     handleManualSearch s = s
     ∧ (hero_view s = true → rendered s → dispatch s SearchSubmit = Some s))
  ∧ (∀ (s : App) (q : jsstring), reachable s →
       handleManualSearch_await q ∈ pending s → trim q ≠ []).
Proof.
  split.
  - intros s Hb.
    assert (Hs : handleManualSearch s = s).
    { unfold handleManualSearch. by rewrite (trim_blank _ Hb). }
    split; [assumption|]. intros Hv Hr.
    unfold dispatch. simpl. rewrite Hv, Hs. simpl. by rewrite Hr.
  - intros s q Hs Hq.
    pose proof (reachable_pending s Hs) as Hall.
    rewrite Forall_forall in Hall. by apply (Hall _ Hq q).
Qed.

(** Three spaces in the form: submitting leaves the state as it is.  And
    after [dal] is typed and submitted, the request in flight carries
    [dal]. *)
Lemma blank_search_ignored_witness :
  let s := setManualInput (lit "   ") initial in
  let t := commit (handleManualSearch (setManualInput (lit "dal") initial)) in
  blank (manualInput s)
  ∧ handleManualSearch s = s
  ∧ reachable t
  ∧ handleManualSearch_await (lit "dal") ∈ pending t
  ∧ trim (lit "dal") ≠ [].
Proof.
  intros s t.
  assert (Hb : blank (manualInput s)) by (repeat constructor).
  assert (Ht : reachable t).
  { apply (run_reachable initial t
             [ManualInputChange (lit "dal"); SearchSubmit]);
      [constructor | reflexivity]. }
  assert (Hq : handleManualSearch_await (lit "dal") ∈ pending t)
    by (apply list_elem_of_here).
  split; [exact Hb|].
  split; [apply (proj1 blank_search_ignored s Hb)|].
  split; [exact Ht|].
  split; [exact Hq|].
  exact (proj2 blank_search_ignored t (lit "dal") Ht Hq).
Defined.

(** ** Resuming the request issued last *)

Lemma handle_settle_last (s : App) (l : list Continuation)
    (k : Continuation) (o : Outcome) :
  pending s = l ++ [k] →
  handle (Settle (length l) o) s = resume k o (set_pending l s).
Proof.
  intros H. simpl. rewrite H.
  rewrite lookup_app_r, Nat.sub_diag by lia. simpl.
  by rewrite (delete_middle l [] k), app_nil_r.
Qed.

Lemma dispatch_settle_last (s : App) (l : list Continuation)
    (k : Continuation) (o : Outcome) :
  pending s = l ++ [k] →
  dispatch s (Settle (length l) o) = commit <$> resume k o (set_pending l s).
Proof. intros H. unfold dispatch. by rewrite (handle_settle_last s l k o H). Qed.

(** C4. A search that is issued from the form and succeeds ends in the
    Result view with the oracle's record, and the history list is the one
    before the search. *)
Theorem manual_search_success (s : App) (r : FoodData) :
  hero_view s = true →
  trim (manualInput s) ≠ [] →
  ∃ s', run s [SearchSubmit;
               Settle (length (pending s)) (name_analyzed r)] = Some s'
        ∧ results_view s' = true
        ∧ foodData s' = Some r
        ∧ history s' = history s.
Proof.
  intros Hv Hq.
  assert (Ht : truthy_string (trim (manualInput s)) = true)
    by (destruct (trim (manualInput s)); done).
  set (s1 := commit (handleManualSearch s)).
  assert (H1 : dispatch s SearchSubmit = Some s1).
  { unfold dispatch. simpl. by rewrite Hv. }
  assert (Hp : pending s1
               = pending s ++ [handleManualSearch_await (manualInput s)]).
  { unfold s1. rewrite pending_commit. unfold handleManualSearch.
    by rewrite Ht. }
  eexists. split.
  { simpl. rewrite H1. simpl.
    rewrite (dispatch_settle_last s1 _ _ _ Hp). simpl. reflexivity. }
  unfold results_view. rewrite !history_commit. simpl.
  assert (Hf : ∀ t, foodData (commit t) = foodData t)
    by (intros t; unfold commit; by repeat case_match).
  assert (Ha : ∀ t, isAnalyzing (commit t) = isAnalyzing t)
    by (intros t; unfold commit; by repeat case_match).
  rewrite Hf, Ha. simpl. repeat split.
  unfold s1. rewrite history_commit. unfold handleManualSearch.
  by rewrite Ht.
Qed.

(** From the first render, [paneer tikka] is typed and searched. *)
Lemma manual_search_success_witness :
  let s := setManualInput (lit "paneer tikka") initial in
  ∃ s', run s [SearchSubmit; Settle 0 (name_analyzed paneer_tikka)] = Some s'
        ∧ results_view s' = true
        ∧ length (history s') = 0%nat.
Proof.
  intros s.
  destruct (manual_search_success s paneer_tikka)
    as (s' & Hrun & Hview & _ & Hhist); [reflexivity | discriminate |].
  exists s'. split; [exact Hrun|]. split; [exact Hview|].
  rewrite Hhist. reflexivity.
Defined.

(** ** Capture *)

Lemma stop_tracks_ended (stream : MediaStream) :
  Forall (λ t, t = ended) (track_stop <$> stream).
Proof. induction stream; constructor; done. Qed.

(** C6. A capture in the camera view keeps the encoded frame as the captured
    image, then stops the camera (every track of the attached stream is
    ended, the camera flag is off and the video element is gone after the
    render) and starts the analysis of that frame: the Analyzing view is
    shown and the request for the frame is in flight. *)
Theorem capture_stops_and_analyzes (s : App) (dataUrl : jsstring) :
  rendered s →
  isCameraActive s = true →
  ∃ s', dispatch s (CaptureClick dataUrl true) = Some s'
        ∧ capturedImage s' = Some dataUrl
        ∧ isCameraActive s' = false
        ∧ videoRef s' = None
        ∧ (∀ i tracks, attached_stream s = Some i →
             streams s' !! i = Some tracks → Forall (λ t, t = ended) tracks)
        ∧ analyzing_view s' = true
        ∧ pending s' = pending s
                       ++ [handleAnalyze_await (Some dataUrl) (history s)].
Proof.
  intros Hr Hc. destruct (rendered_video s Hr Hc) as [v Hv].
  destruct s as [? cam ? ? ? ? ? ? ? ref strs ? ? ?]. simpl in *. subst.
  clear Hr. destruct v as [[j|]].
  - eexists. split; [reflexivity|]. simpl. repeat split.
    intros i tracks [= ->] Hi.
    rewrite list_lookup_alter_eq in Hi.
    destruct (strs !! i) as [stream|]; simplify_eq/=.
    apply stop_tracks_ended.
  - eexists. split; [reflexivity|]. simpl. repeat split.
    intros i tracks Hi. discriminate Hi.
Qed.

(** The camera is opened from the first render and the device grants a
    stream; the capture ends its track. *)
Lemma capture_stops_and_analyzes_witness :
  ∃ s s', run initial [ScanFoodClick; Settle 0 granted] = Some s
          ∧ streams s = [[live]]
          ∧ dispatch s (CaptureClick (lit "data:image/jpeg;base64,AA") true)
            = Some s'
          ∧ isCameraActive s' = false
          ∧ streams s' = [[ended]]
          ∧ analyzing_view s' = true.
Proof.
  set (s := commit (startCamera_resolved 0
              (set_streams [[live]] (set_pending []
                 (commit (startCamera initial)))))).
  assert (Hr : rendered s) by (vm_compute; reflexivity).
  assert (Hc : isCameraActive s = true) by (vm_compute; reflexivity).
  destruct (capture_stops_and_analyzes s (lit "data:image/jpeg;base64,AA")
              Hr Hc)
    as (s' & Hd & _ & Hc' & _ & Hs & Ha & _).
  exists s, s'. split; [vm_compute; reflexivity|].
  split; [vm_compute; reflexivity|].
  split; [exact Hd|]. split; [exact Hc'|]. split; [|exact Ha].
  vm_compute in Hd. injection Hd as <-. vm_compute. reflexivity.
Defined.

(** ** An image analysis, from the action bar to the oracle's answer *)

Lemma lookup_issued_last (l : list Continuation) (k : Continuation) :
  (l ++ [k]) !! length l = Some k.
Proof. by apply list_lookup_middle. Qed.

Lemma delete_issued_last (l : list Continuation) (k : Continuation) :
  delete (length l) (l ++ [k]) = l.
Proof. by rewrite (delete_middle l [] k), app_nil_r. Qed.

Lemma action_bar_flags (s : App) :
  action_bar s = true → isCameraActive s = false ∧ isAnalyzing s = false.
Proof.
  unfold action_bar. destruct (isCameraActive s), (isAnalyzing s); done.
Qed.

(** Symbolic execution of the handlers on a state given field by field. *)
Ltac exec :=
  cbv beta iota zeta delta
    [run dispatch handle guard resume commit suspend
     toggleTheme startCamera getUserMedia_grant startCamera_resolved
     startCamera_rejected stopCamera handleAnalyze handleAnalyze_resolved
     handleAnalyze_rejected capturePhoto handleFileUpload reader_onloadend
     handleManualSearch handleManualSearch_resolved
     handleManualSearch_rejected dismiss retake newScan clear selectHistory
     error_banner hero_view camera_view captured_view analyzing_view
     results_view action_bar isSome truthy
     setIsDarkMode setIsCameraActive setCapturedImage setIsAnalyzing
     setFoodData setError setHistory setShowHistory setManualInput
     set_videoRef set_streams setItem set_darkClass set_pending
     isDarkMode isCameraActive capturedImage isAnalyzing foodData error
     history showHistory manualInput videoRef streams localStorage
     darkClass pending srcObject
     image_events fmap option_fmap option_map mbind option_bind
     negb andb orb fst snd].

Ltac settle_last :=
  rewrite ?lookup_issued_last, ?delete_issued_last; exec.

Lemma image_analysis_failed (s : App) (src : Source) (img : jsstring)
    (err : JSError) :
  action_bar s = true →
  ∃ s1, run s (image_events (length (pending s)) src img (failed err))
        = Some s1
        ∧ error s1 = Some (analyze_failed_message err)
        ∧ capturedImage s1 = Some img
        ∧ foodData s1 = None
        ∧ isAnalyzing s1 = false
        ∧ isCameraActive s1 = false
        ∧ history s1 = history s
        ∧ pending s1 = pending s.
Proof.
  intros Hbar. destruct (action_bar_flags s Hbar) as [Hc Ha].
  destruct s as [? cam ? an ? ? ? ? ? ref strs ? ? pend].
  simpl in Hc, Ha. subst cam an. clear Hbar.
  destruct src; exec.
  - settle_last. settle_last. eexists. split; [reflexivity|]. done.
  - destruct ref as [v|]; exec; settle_last.
    + settle_last. eexists. split; [reflexivity|]. done.
    + settle_last. eexists. split; [reflexivity|]. done.
Qed.

Lemma analyze_failed_message_truthy (err : JSError) :
  truthy_string (analyze_failed_message err) = true.
Proof. by apply or_else_truthy. Qed.




(** ** What a failure leaves of the result *)

Lemma search_failed (s : App) (err : JSError) :
  hero_view s = true →
  trim (manualInput s) ≠ [] →
  ∃ s1, run s [SearchSubmit; Settle (length (pending s)) (failed err)]
        = Some s1
        ∧ error_banner s1 = true
        ∧ foodData s1 = None
        ∧ history s1 = history s.
Proof.
  intros Hv Hq.
  assert (Ht : truthy_string (trim (manualInput s)) = true)
    by (destruct (trim (manualInput s)); done).
  assert (Hm : truthy_string (or_else (message err) (lit "Search failed."))
               = true) by (by apply or_else_truthy).
  destruct s as [? cam ci an fd ? ? ? mi ref ? ? ? pend].
  unfold hero_view in Hv. simpl in Hv, Ht.
  destruct fd, an, cam, ci as [[|c r]|]; try discriminate Hv. clear Hv Hq.
  all: exec; cbn [truthy_string]; rewrite Ht; exec; settle_last.
  all: eexists; (split; [reflexivity|]); exec; by rewrite Hm.
Qed.

(** C9, as the code has it. The handlers of a failed request set the error
    and leave [foodData] as it is.  The record is absent after the failure
    where the analysis came from the action bar (an upload clears the
    record when the file is read, Scan Food when the camera starts) or from
    the search form (shown only while no record is). *)
Theorem failure_leaves_result (s : App) (err : JSError) :
  foodData (handleAnalyze_rejected err s) = foodData s
  ∧ foodData (handleManualSearch_rejected err s) = foodData s
  ∧ (action_bar s = true →
     ∀ src img, ∃ s1,
       run s (image_events (length (pending s)) src img (failed err))
       = Some s1
       ∧ foodData s1 = None ∧ results_view s1 = false)
  ∧ (hero_view s = true → trim (manualInput s) ≠ [] →
     ∃ s1, run s [SearchSubmit; Settle (length (pending s)) (failed err)]
           = Some s1
           ∧ foodData s1 = None ∧ results_view s1 = false).
Proof.
  split; [reflexivity|]. split; [reflexivity|]. split.
  - intros Hbar src img.
    destruct (image_analysis_failed s src img err Hbar)
      as (s1 & Hrun & _ & _ & Hfd & _).
    exists s1. split; [exact Hrun|]. split; [exact Hfd|].
    unfold results_view. by rewrite Hfd.
  - intros Hv Hq.
    destruct (search_failed s err Hv Hq) as (s1 & Hrun & _ & Hfd & _).
    exists s1. split; [exact Hrun|]. split; [exact Hfd|].
    unfold results_view. by rewrite Hfd.
Qed.

(** An upload from the first render whose analysis fails, and a search for
    [dal] that fails. *)
Lemma failure_leaves_result_witness :
  (∃ s1, run initial
           (image_events 0 by_upload (lit "data:image/png;base64,iVBOR")
              (failed {| message := None |})) = Some s1
         ∧ foodData s1 = None ∧ results_view s1 = false)
  ∧ (∃ s1, run (setManualInput (lit "dal") initial)
             [SearchSubmit; Settle 0 (failed {| message := None |})]
           = Some s1
           ∧ foodData s1 = None ∧ results_view s1 = false).
Proof.
  split.
  - apply (failure_leaves_result initial {| message := None |}).
    reflexivity.
  - apply (failure_leaves_result (setManualInput (lit "dal") initial)
             {| message := None |}); [reflexivity | discriminate].
Defined.

(** C9, as stated, fails: a record selected from the history is displayed
    while the camera is open; the capture is analyzed, the request fails,
    and the record is still displayed next to the error. *)
Lemma failure_keeps_displayed_result :
  ∃ s0 s1,
    run initial camera_with_history_entry = Some s0
    ∧ foodData s0 = Some paneer_tikka
    ∧ run s0 [CaptureClick (lit "data:image/jpeg;base64,AA") true;
              Settle 0 (failed {| message := Some (lit "Failed to fetch") |})]
      = Some s1
    ∧ error s1 = Some (lit "Failed to fetch")
    ∧ foodData s1 = Some paneer_tikka
    ∧ results_view s1 = true.
Proof.
  eexists _, _. split; [vm_compute; reflexivity|].
  split; [vm_compute; reflexivity|].
  split; [vm_compute; reflexivity|].
  repeat split; vm_compute; reflexivity.
Qed.

(** ** Starting the camera *)

Lemma live_streams_opened (strs : list MediaStream) :
  length (filter (λ stream, stream_live stream = true) (strs ++ [[live]]))
  = S (length (filter (λ stream, stream_live stream = true) strs)).
Proof.
  rewrite filter_app, length_app. simpl. lia.
Qed.

(** C3, as the code has it. [startCamera] stops no track: it leaves the
    streams of the device as they are, and once the device grants its
    request there is one more live stream, which takes the place of the
    stream attached to the video element. *)
Theorem start_keeps_prior_streams (s : App) :
  streams (commit (startCamera s)) = streams s
  ∧ ∃ s', run (commit (startCamera s)) [Settle (length (pending s)) granted]
          = Some s'
          ∧ streams s' = streams s ++ [[live]]
          ∧ live_streams s' = S (live_streams s)
          ∧ attached_stream s' = Some (length (streams s)).
Proof.
  destruct s as [? cam ? ? ? ? ? ? ? [v|] strs ? ? pend];
    unfold live_streams, attached_stream; exec.
  all: split; [reflexivity|]; settle_last.
  all: eexists; split; [reflexivity|]; exec.
  all: split; [reflexivity|]; split; [apply live_streams_opened | reflexivity].
Qed.

(** C3, as stated, fails: the camera is open with a live stream; New Scan
    (offered beside a record selected from the history) starts it again,
    and two streams of the device are live. *)
Lemma second_start_leaves_two_live_streams :
  ∃ s1 s2,
    run initial camera_with_history_entry = Some s1
    ∧ isCameraActive s1 = true
    ∧ attached_stream s1 = Some 0%nat
    ∧ streams s1 = [[live]]
    ∧ run s1 [NewScanClick; Settle 0 granted] = Some s2
    ∧ streams s2 = [[live]; [live]]
    ∧ live_streams s2 = 2%nat
    ∧ attached_stream s2 = Some 1%nat.
Proof.
  eexists _, _. split; [vm_compute; reflexivity|].
  split; [vm_compute; reflexivity|].
  split; [vm_compute; reflexivity|].
  split; [vm_compute; reflexivity|].
  split; [vm_compute; reflexivity|].
  repeat split; vm_compute; reflexivity.
Qed.

(** ** The views *)

(** C8, as the code has it. Of the Captured, Analyzing and Result views at
    most one is shown, in every state; the camera view has a flag of its
    own. *)
Theorem captured_analyzing_result_exclusive (s : App) :
  (shown_modes s ≤ 1)%nat.
Proof.
  unfold shown_modes, captured_view, analyzing_view, results_view.
  destruct (truthy (capturedImage s)), (isSome (foodData s)),
    (isAnalyzing s); vm_compute; lia.
Qed.

(** C8, as stated, fails: a file is chosen, the camera is started while the
    file is read, and when the read ends its analysis begins: the camera
    view and the Analyzing view are both shown. *)
Lemma camera_and_analyzing_together :
  ∃ s,
    run initial [FileChange true; ScanFoodClick;
                 Settle 0 (loaded (Some (lit "data:image/png;base64,iVBOR")))]
    = Some s
    ∧ reachable s
    ∧ camera_view s = true
    ∧ analyzing_view s = true.
Proof.
  eexists. split; [vm_compute; reflexivity|].
  split.
  - apply (run_reachable initial _
             [FileChange true; ScanFoodClick;
              Settle 0 (loaded (Some (lit "data:image/png;base64,iVBOR")))]);
      [constructor | vm_compute; reflexivity].
  - split; vm_compute; reflexivity.
Qed.

(** ** The history list *)

Lemma image_analysis_succeeded (s : App) (src : Source) (img : jsstring)
    (r : FoodData) (nid nts : Z) (thr : option JSError) :
  action_bar s = true →
  ∃ s1, run s (image_events (length (pending s)) src img
                 (image_analyzed r nid nts thr)) = Some s1
        ∧ action_bar s1 = true
        ∧ pending s1 = pending s
        ∧ foodData s1 = Some r
        ∧ history s1 = take 20 (newHistory (Some img) r nid nts :: history s).
Proof.
  intros Hbar. destruct (action_bar_flags s Hbar) as [Hc Ha].
  destruct s as [? cam ? an ? ? ? ? ? ref strs ? ? pend].
  simpl in Hc, Ha. subst cam an. clear Hbar.
  destruct src, thr as [e|], ref as [v|]; exec; settle_last; settle_last.
  all: eexists; (split; [reflexivity|]); done.
Qed.

Lemma take_cons_take {A} (n : nat) (x : A) (l : list A) :
  take (S n) (x :: take (S n) l) = take (S n) (x :: l).
Proof. simpl. f_equal. rewrite take_take. f_equal. lia. Qed.

Lemma shots_run (xs : list Shot) :
  ∃ s, run initial (xs ≫= shot_events) = Some s
       ∧ action_bar s = true
       ∧ pending s = []
       ∧ history s = take 20 (reverse (entry_of <$> xs)).
Proof.
  induction xs as [|x xs (s & Hrun & Hbar & Hp & Hh)] using rev_ind.
  - exists initial. by repeat split.
  - destruct (image_analysis_succeeded s (source x) (image x) (result x)
                (now_id x) (now_ts x) (setItem_throws x) Hbar)
      as (s1 & Hrun1 & Hbar1 & Hp1 & _ & Hh1).
    rewrite Hp in Hrun1, Hp1. simpl in Hrun1.
    exists s1. split.
    { rewrite bind_app, run_app, Hrun. simpl.
      rewrite app_nil_r. exact Hrun1. }
    split; [exact Hbar1|]. split; [exact Hp1|].
    rewrite Hh1, Hh, fmap_app.
    change (entry_of <$> [x]) with [entry_of x].
    rewrite reverse_snoc. apply take_cons_take.
Qed.

(** C1, as the code has it. After any sequence of [N] image analyses that
    succeed one after the other from the first render (by upload or by the
    camera, whether or not [localStorage] accepts the write), the history
    list holds the entries of the last [min N 20] of them, newest first. *)
Theorem history_bounded_newest_first (xs : list Shot) :
  ∃ s, run initial (xs ≫= shot_events) = Some s
       ∧ length (history s) = min (length xs) 20
       ∧ history s = take 20 (reverse (entry_of <$> xs)).
Proof.
  destruct (shots_run xs) as (s & Hrun & _ & _ & Hh).
  exists s. split; [exact Hrun|]. split; [|exact Hh].
  rewrite Hh, length_take, length_reverse, length_fmap. lia.
Qed.

(** C1, as stated, fails: after 21 analyses the list has 20 entries, and
    the entry of the first of these 21 most recent analyses is not among
    them. *)
Lemma history_drops_oldest_of_21 :
  ∃ s, run initial (twenty_one_shots ≫= shot_events) = Some s
       ∧ length twenty_one_shots = 21%nat
       ∧ shot_at 1 ∈ twenty_one_shots
       ∧ length (history s) = 20%nat
       ∧ entry_of (shot_at 1) ∉ history s.
Proof.
  destruct (shots_run twenty_one_shots) as (s & Hrun & _ & _ & Hh).
  exists s. split; [exact Hrun|]. split; [reflexivity|].
  split; [apply list_elem_of_here|].
  split; [rewrite Hh; vm_compute; reflexivity|].
  rewrite Hh. intros Hin.
  apply (list_elem_of_fmap_2 timestamp) in Hin. vm_compute in Hin.
  repeat (apply elem_of_cons in Hin as [Hin|Hin]; [discriminate Hin|]).
  by apply elem_of_nil in Hin.
Qed.

(** Analyses that overlap are another matter: each handler prepends to the
    history of the render that created it.  Two files are chosen before the
    first is read, both analyses succeed, and the list holds one entry. *)
Lemma overlapping_uploads_keep_one_entry :
  ∃ s,
    run initial
      [FileChange true; FileChange true;
       Settle 0 (loaded (Some (lit "data:image/png;base64,iVBOR")));
       Settle 0 (loaded (Some (lit "data:image/png;base64,R0lGO")));
       Settle 0 (image_analyzed paneer_tikka 1 1 None);
       Settle 0 (image_analyzed paneer_tikka 2 2 None)] = Some s
    ∧ timestamp <$> history s = [2].
Proof. eexists. split; vm_compute; reflexivity. Qed.

(** ** Loading the persisted history *)

(** C2, as the code has it. With nothing, or the empty string, under the
    history key the effect returns and the history stays the empty list;
    with a JSON text it returns and the history is the parsed value; with
    any other text [JSON.parse] throws and nothing in the effect catches
    the [SyntaxError]. *)
Theorem load_history_cases (store : gmap jsstring jsstring) :
  match store !! history_key with
  | None | Some [] =>
    ∃ updates, persistence_effect store = Returns updates
               ∧ loaded_history updates = None
  | Some text =>
    match JSON.parse text with
    | Some v =>
      ∃ updates, persistence_effect store = Returns updates
                 ∧ loaded_history updates = Some v
    | None => persistence_effect store = Throws_SyntaxError
    end
  end.
Proof.
  unfold persistence_effect.
  destruct (store !! history_key) as [[|c text]|]; cbn [truthy_string].
  - destruct (decide _); eexists; (split; [reflexivity|]); reflexivity.
  - destruct (JSON.parse (c :: text)) as [v|]; [|reflexivity].
    destruct (decide _); eexists; (split; [reflexivity|]); reflexivity.
  - destruct (decide _); eexists; (split; [reflexivity|]); reflexivity.
Qed.

(** C2, as stated, fails: a text that is not JSON under the history key
    makes the load throw. *)
Lemma load_throws_on_malformed_history :
  JSON.parse (lit "{oops") = None
  ∧ persistence_effect {[ history_key := lit "{oops" ]} = Throws_SyntaxError.
Proof. split; vm_compute; reflexivity. Qed.

(** * Further properties of the handlers *)

(** ** Case analysis of one step *)

Lemma keys_differ : history_key ≠ theme_key.
Proof. vm_compute. discriminate. Qed.

Ltac exec_in H :=
  cbv beta iota zeta delta
    [run dispatch handle guard resume commit suspend
     toggleTheme startCamera getUserMedia_grant startCamera_resolved
     startCamera_rejected stopCamera handleAnalyze handleAnalyze_resolved
     handleAnalyze_rejected capturePhoto handleFileUpload reader_onloadend
     handleManualSearch handleManualSearch_resolved
     handleManualSearch_rejected dismiss retake newScan clear selectHistory
     error_banner hero_view camera_view captured_view analyzing_view
     results_view action_bar isSome truthy
     setIsDarkMode setIsCameraActive setCapturedImage setIsAnalyzing
     setFoodData setError setHistory setShowHistory setManualInput
     set_videoRef set_streams setItem set_darkClass set_pending
     isDarkMode isCameraActive capturedImage isAnalyzing foodData error
     history showHistory manualInput videoRef streams localStorage
     darkClass pending srcObject
     image_events fmap option_fmap option_map mbind option_bind
     negb andb orb fst snd] in H.

(** The cases of [handle e s = Some t], the state given field by field. *)
Ltac step_cases H :=
  match type of H with
  | handle ?e ?s = Some ?t =>
    destruct e as [|thr| | |ix|value| | |dataUrl context| | |file| | |ix o];
    simpl in H; unfold guard in H;
    try (apply bind_Some in H as (?x & ?Hx & H));
    try match type of H with resume ?k ?o _ = _ => destruct k, o end;
    exec_in H;
    repeat match type of H with
           | context [match ?x with _ => _ end] =>
             lazymatch x with
             | context [match _ with _ => _ end] => fail
             | _ => destruct x eqn:?
             end
           end;
    try discriminate H;
    injection H as <-
  end.

(** ** The theme *)

Lemma theme_in_step_commit (s : App) :
  theme_in_step s → theme_in_step (commit s).
Proof.
  destruct s as [dm cam ci an fd er hi sh mi [v|] strs ls dc pend];
    destruct cam; intros H; exact H.
Qed.

Lemma handle_dark_class (e : Event) (s t : App) :
  handle e s = Some t →
  darkClass s = isDarkMode s → darkClass t = isDarkMode t.
Proof.
  intros H Hs.
  destruct s as [dm cam ci an fd er hi sh mi ref strs ls dc pend].
  simpl in Hs.
  step_cases H; simpl; done.
Qed.

Lemma run_dark_class (es : list Event) (s t : App) :
  run s es = Some t →
  darkClass s = isDarkMode s → darkClass t = isDarkMode t.
Proof.
  revert s. induction es as [|e es IH]; intros s Hrun Hs; simpl in Hrun.
  - by injection Hrun as <-.
  - unfold dispatch in Hrun.
    destruct (handle e s) as [u|] eqn:Hu; simpl in Hrun; [|done].
    apply (IH (commit u) Hrun).
    assert (Hc : ∀ v, darkClass (commit v) = darkClass v
                      ∧ isDarkMode (commit v) = isDarkMode v)
      by (intros v; unfold commit; by repeat case_match).
    destruct (Hc u) as [-> ->]. by eapply handle_dark_class.
Qed.

Lemma handle_theme (e : Event) (s t : App) :
  handle e s = Some t →
  theme_write_accepted e = true →
  theme_in_step s → theme_in_step t.
Proof.
  intros H Hacc Hs.
  destruct s as [dm cam ci an fd er hi sh mi ref strs ls dc pend].
  unfold theme_in_step in *. simpl in Hs.
  step_cases H; simpl; try assumption; try discriminate Hacc.
  all: try (rewrite lookup_insert_ne by apply keys_differ; assumption).
  all: split; [done|]; right; apply lookup_insert_eq.
Qed.

Lemma run_theme (es : list Event) (s t : App) :
  forallb theme_write_accepted es = true →
  run s es = Some t →
  theme_in_step s → theme_in_step t.
Proof.
  revert s. induction es as [|e es IH]; intros s Hacc Hrun Hs; simpl in *.
  - by injection Hrun as <-.
  - apply andb_prop in Hacc as [He Hes].
    unfold dispatch in Hrun.
    destruct (handle e s) as [u|] eqn:Hu; simpl in Hrun; [|done].
    apply (IH (commit u)); [assumption..|].
    apply theme_in_step_commit. by eapply handle_theme.
Qed.

(** X1. After any sequence of events from the first render the dark class
    of the document equals [isDarkMode], also when a write of the theme
    was refused; and as long as no write of the theme throws, the theme
    key of [localStorage] holds nothing (the theme was never toggled:
    light) or the word for the current mode; writing the history never
    touches it. *)
Theorem theme_always_in_step (es : list Event) (s : App) :
  run initial es = Some s →
  darkClass s = isDarkMode s
  ∧ (forallb theme_write_accepted es = true →
     localStorage s !! theme_key = None ∧ isDarkMode s = false
     ∨ localStorage s !! theme_key
       = Some (Text (if isDarkMode s then lit "dark" else lit "light"))).
Proof.
  intros Hrun. split.
  - by apply (run_dark_class es initial s Hrun).
  - intros Hacc.
    apply (run_theme es initial s Hacc Hrun). split; [done|]. by left.
Qed.

(** The theme is toggled, a photo is analyzed, the theme is toggled back;
    and a first toggle whose write is refused. *)
Lemma theme_always_in_step_witness :
  (∃ s, run initial
          (ThemeButtonClick None
           :: image_events 0 by_upload (lit "data:image/png;base64,iVBOR")
                (image_analyzed paneer_tikka 1 1 None)
           ++ [ThemeButtonClick None]) = Some s
        ∧ darkClass s = false
        ∧ isDarkMode s = false
        ∧ localStorage s !! theme_key = Some (Text (lit "light")))
  ∧ (∃ s, run initial
            [ThemeButtonClick
               (Some {| message := Some (lit "QuotaExceededError") |})]
          = Some s
          ∧ isDarkMode s = true
          ∧ darkClass s = true
          ∧ localStorage s !! theme_key = None).
Proof.
  split.
  - set (es := ThemeButtonClick None
               :: image_events 0 by_upload
                    (lit "data:image/png;base64,iVBOR")
                    (image_analyzed paneer_tikka 1 1 None)
               ++ [ThemeButtonClick None]).
    assert (Hex : ∃ s, run initial es = Some s)
      by (eexists; vm_compute; reflexivity).
    destruct Hex as [s Hrun].
    destruct (theme_always_in_step es s Hrun) as [Hc Hst].
    specialize (Hst eq_refl).
    exists s. split; [exact Hrun|].
    vm_compute in Hrun. injection Hrun as <-.
    split; [exact (eq_trans Hc eq_refl)|]. split; [reflexivity|].
    destruct Hst as [[Hn _]|Ht];
      [vm_compute in Hn; discriminate Hn | exact Ht].
  - set (es := [ThemeButtonClick
                  (Some {| message := Some (lit "QuotaExceededError") |})]).
    assert (Hex : ∃ s, run initial es = Some s)
      by (eexists; vm_compute; reflexivity).
    destruct Hex as [s Hrun].
    destruct (theme_always_in_step es s Hrun) as [Hc _].
    exists s. split; [exact Hrun|].
    vm_compute in Hrun. injection Hrun as <-.
    split; [reflexivity|]. split; [exact (eq_trans Hc eq_refl)|].
    vm_compute. reflexivity.
Defined.

(** ** The history list in every reachable state *)

Lemma handle_history_bound (e : Event) (s t : App) :
  handle e s = Some t →
  (length (history s) ≤ 20)%nat → (length (history t) ≤ 20)%nat.
Proof.
  intros H Hs.
  destruct s as [dm cam ci an fd er hi sh mi ref strs ls dc pend].
  simpl in Hs.
  step_cases H; simpl; try assumption.
  all: rewrite length_take; lia.
Qed.

(** X2. In every reachable state, whatever the order in which requests
    were issued and answered, the history list has at most 20 entries. *)
Theorem history_never_exceeds_20 (s : App) :
  reachable s → (length (history s) ≤ 20)%nat.
Proof.
  induction 1 as [|s e s' _ IH Hd]; [simpl; lia|].
  unfold dispatch in Hd.
  destruct (handle e s) as [t|] eqn:Ht; simplify_eq/=.
  rewrite history_commit. by eapply handle_history_bound.
Qed.

(** After 21 uploads the bound is met. *)
Lemma history_never_exceeds_20_witness :
  ∃ s, run initial (twenty_one_shots ≫= shot_events) = Some s
       ∧ (length (history s) ≤ 20)%nat.
Proof.
  destruct (shots_run twenty_one_shots) as (s & Hrun & _).
  exists s. split; [exact Hrun|].
  apply history_never_exceeds_20.
  exact (run_reachable initial s _ reachable_initial Hrun).
Defined.

Lemma history_persisted_commit (s : App) :
  history_persisted s → history_persisted (commit s).
Proof.
  destruct s as [dm cam ci an fd er hi sh mi [v|] strs ls dc pend];
    destruct cam; intros H; exact H.
Qed.

Lemma handle_history_persisted (e : Event) (s t : App) :
  handle e s = Some t →
  storage_accepts e = true →
  history_persisted s → history_persisted t.
Proof.
  intros H Hacc Hs.
  destruct s as [dm cam ci an fd er hi sh mi ref strs ls dc pend].
  unfold history_persisted in *. simpl in Hs.
  step_cases H; simpl; try assumption; try discriminate Hacc.
  all: try (rewrite lookup_insert_ne by (apply not_eq_sym, keys_differ);
            assumption).
  all: right; apply lookup_insert_eq.
Qed.

Lemma run_history_persisted (es : list Event) (s t : App) :
  forallb storage_accepts es = true →
  run s es = Some t →
  history_persisted s → history_persisted t.
Proof.
  revert s. induction es as [|e es IH]; intros s Hacc Hrun Hs; simpl in *.
  - by injection Hrun as <-.
  - apply andb_prop in Hacc as [He Hes].
    unfold dispatch in Hrun.
    destruct (handle e s) as [u|] eqn:Hu; simpl in Hrun; [|done].
    apply (IH (commit u)); [assumption..|].
    apply history_persisted_commit. by eapply handle_history_persisted.
Qed.

(** X3. As long as no write to [localStorage] throws, what is stored under
    the history key after any sequence of events from the first render is
    the serialization of the history list in memory (and nothing while the
    list is still empty); toggling the theme does not touch it. *)
Theorem stored_history_is_memory_history (es : list Event) (s : App) :
  forallb storage_accepts es = true →
  run initial es = Some s →
  (localStorage s !! history_key = None ∧ history s = [])
  ∨ localStorage s !! history_key = Some (JSON_stringify (history s)).
Proof.
  intros Hacc Hrun.
  apply (run_history_persisted es initial s Hacc Hrun). by left.
Qed.

Lemma stored_history_is_memory_history_witness :
  ∃ s, run initial
         (image_events 0 by_camera (lit "data:image/jpeg;base64,AA")
            (image_analyzed paneer_tikka 5 6 None)
            ++ [ThemeButtonClick None])
       = Some s
       ∧ localStorage s !! history_key
         = Some (JSON_stringify
                   [newHistory (Some (lit "data:image/jpeg;base64,AA"))
                      paneer_tikka 5 6]).
Proof.
  set (es := image_events 0 by_camera (lit "data:image/jpeg;base64,AA")
               (image_analyzed paneer_tikka 5 6 None)
            ++ [ThemeButtonClick None]).
  assert (Hex : ∃ s, run initial es = Some s)
    by (eexists; vm_compute; reflexivity).
  destruct Hex as [s Hrun].
  destruct (stored_history_is_memory_history es s eq_refl Hrun)
    as [[_ Hn]|Hst].
  - exfalso. vm_compute in Hrun. injection Hrun as <-. discriminate Hn.
  - exists s. split; [exact Hrun|].
    vm_compute in Hrun. injection Hrun as <-. exact Hst.
Defined.

(** ** The error and the spinner in every reachable state *)

Lemma or_else_not_empty (a : option jsstring) (b : jsstring) :
  b ≠ [] → or_else a b ≠ [].
Proof.
  intros Hb. destruct a as [[|c m]|]; simpl; done.
Qed.

Lemma handle_error_not_empty (e : Event) (s t : App) :
  handle e s = Some t → error s ≠ Some [] → error t ≠ Some [].
Proof.
  intros H Hs.
  destruct s as [dm cam ci an fd er hi sh mi ref strs ls dc pend].
  simpl in Hs.
  step_cases H; simpl; try assumption; try discriminate.
  all: intros [= Hm]; by apply or_else_not_empty in Hm.
Qed.

(** X4. In every reachable state the error is absent or a message that is
    not empty, so the banner is shown exactly when an error is held. *)
Theorem error_is_never_empty (s : App) :
  reachable s →
  error s ≠ Some [] ∧ error_banner s = isSome (error s).
Proof.
  intros Hr.
  assert (H : error s ≠ Some []).
  { induction Hr as [|s e s' _ IH Hd]; [done|].
    unfold dispatch in Hd.
    destruct (handle e s) as [t|] eqn:Ht; simplify_eq/=.
    assert (He : error (commit t) = error t)
      by (unfold commit; by repeat case_match).
    rewrite He. by eapply handle_error_not_empty. }
  split; [exact H|].
  unfold error_banner. destruct (error s) as [[|c m]|]; done.
Qed.

(** An analysis rejected with an empty message: the fallback is shown. *)
Lemma error_is_never_empty_witness :
  ∃ s, run initial
         (image_events 0 by_upload (lit "data:image/png;base64,iVBOR")
            (failed {| message := Some [] |})) = Some s
       ∧ error s = Some (lit "Failed to analyze image. Please try again.")
       ∧ error_banner s = true.
Proof.
  set (es := image_events 0 by_upload (lit "data:image/png;base64,iVBOR")
               (failed {| message := Some [] |})).
  assert (Hex : ∃ s, run initial es = Some s)
    by (eexists; vm_compute; reflexivity).
  destruct Hex as [s Hrun].
  destruct (error_is_never_empty s
              (run_reachable initial s es reachable_initial Hrun))
    as [_ Hb].
  exists s. split; [exact Hrun|].
  vm_compute in Hrun. injection Hrun as <-.
  split; [reflexivity | exact Hb].
Defined.

Lemma existsb_delete_other {A} (f : A → bool) (l : list A) (i : nat) (k : A) :
  l !! i = Some k → f k = false → existsb f (delete i l) = existsb f l.
Proof.
  revert i. induction l as [|x l IH]; intros [|i]; simpl; try done.
  - by intros [= ->] ->.
  - intros Hi Hk. by rewrite (IH i Hi Hk).
Qed.

Lemma existsb_issued {A} (f : A → bool) (l : list A) (k : A) :
  f k = true → existsb f (l ++ [k]) = true.
Proof.
  intros Hk. rewrite existsb_app. simpl. rewrite Hk.
  by destruct (existsb f l).
Qed.

Lemma existsb_issued_other {A} (f : A → bool) (l : list A) (k : A) :
  existsb f l = true → existsb f (l ++ [k]) = true.
Proof. intros Hl. rewrite existsb_app, Hl. done. Qed.

Lemma handle_analyzing_pending (e : Event) (s t : App) :
  handle e s = Some t →
  (isAnalyzing s = true → existsb analysis_request (pending s) = true) →
  isAnalyzing t = true → existsb analysis_request (pending t) = true.
Proof.
  intros H Hs.
  destruct s as [dm cam ci an fd er hi sh mi ref strs ls dc pend].
  simpl in Hs.
  step_cases H; simpl; try assumption; try discriminate.
  all: try (intros _; by apply existsb_issued).
  all: try (intros Han; apply existsb_issued_other; by apply Hs).
  all: intros Han;
    erewrite existsb_delete_other; [by apply Hs | eassumption | done].
Qed.

(** X5. In every reachable state in which the Analyzing view is shown, a
    request to the oracle (by image or by name) is in flight: the spinner
    never stays without an answer to wait for. *)
Theorem analyzing_has_request_in_flight (s : App) :
  reachable s →
  analyzing_view s = true →
  ∃ k, k ∈ pending s ∧ analysis_request k = true.
Proof.
  intros Hr Ha.
  assert (H : isAnalyzing s = true →
              existsb analysis_request (pending s) = true).
  { clear Ha. induction Hr as [|s e s' _ IH Hd]; [done|].
    unfold dispatch in Hd.
    destruct (handle e s) as [t|] eqn:Ht; simplify_eq/=.
    assert (He : isAnalyzing (commit t) = isAnalyzing t)
      by (unfold commit; by repeat case_match).
    rewrite He, pending_commit. by eapply handle_analyzing_pending. }
  apply H in Ha. apply existsb_exists in Ha as (k & Hk & Hreq).
  exists k. split; [by apply list_elem_of_In | exact Hreq].
Qed.

Lemma analyzing_has_request_in_flight_witness :
  ∃ s k, run initial [ManualInputChange (lit "dal"); SearchSubmit] = Some s
         ∧ k ∈ pending s ∧ analysis_request k = true.
Proof.
  set (es := [ManualInputChange (lit "dal"); SearchSubmit]).
  assert (Hex : ∃ s, run initial es = Some s)
    by (eexists; vm_compute; reflexivity).
  destruct Hex as [s Hrun].
  assert (Ha : analyzing_view s = true).
  { pose proof Hrun as H. vm_compute in H. injection H as <-. reflexivity. }
  destruct (analyzing_has_request_in_flight s
              (run_reachable initial s es reachable_initial Hrun) Ha)
    as (k & Hk & Hreq).
  exists s, k. split; [exact Hrun|]. split; [exact Hk | exact Hreq].
Defined.

(** ** Camera sessions *)

Lemma stop_opened_stream (strs : list MediaStream) :
  alter (fmap track_stop) (length strs) (strs ++ [[live]])
  = strs ++ [[ended]].
Proof. induction strs as [|x strs IH]; simpl; [done|]. f_equal. exact IH. Qed.

Lemma live_streams_closed (strs : list MediaStream) :
  length (filter (λ stream, stream_live stream = true) (strs ++ [[ended]]))
  = length (filter (λ stream, stream_live stream = true) strs).
Proof. rewrite filter_app, length_app. simpl. lia. Qed.

(** X6. When the device denies the camera, the request started from the
    action bar ends with the fixed error message, the camera flag off, no
    stream opened, and the Idle view: the record and image shown before are
    gone, the history is kept. *)
Theorem camera_denied_returns_to_idle (s : App) :
  action_bar s = true →
  ∃ s', run s [ScanFoodClick; Settle (length (pending s)) denied] = Some s'
        ∧ error s' = Some camera_denied_message
        ∧ isCameraActive s' = false
        ∧ videoRef s' = None
        ∧ streams s' = streams s
        ∧ hero_view s' = true
        ∧ history s' = history s
        ∧ pending s' = pending s.
Proof.
  intros Hbar. destruct (action_bar_flags s Hbar) as [Hc Ha].
  destruct s as [? cam ? an ? ? ? ? ? ref strs ? ? pend].
  simpl in Hc, Ha. subst cam an. clear Hbar.
  destruct ref as [v|]; exec; settle_last.
  all: eexists; (split; [reflexivity|]); done.
Qed.

Lemma camera_denied_returns_to_idle_witness :
  ∃ s', run initial [ScanFoodClick; Settle 0 denied] = Some s'
        ∧ error s' = Some camera_denied_message
        ∧ hero_view s' = true.
Proof.
  destruct (camera_denied_returns_to_idle initial eq_refl)
    as (s' & Hrun & He & _ & _ & _ & Hv & _).
  exists s'. split; [exact Hrun|]. split; [exact He | exact Hv].
Defined.

(** X7. A camera session started from the action bar and cancelled after
    the device granted the stream releases it: the stream opened for the
    session has its track ended, as many streams are live as before the
    session, and the Idle view is shown. *)
Theorem cancelled_session_releases_stream (s : App) :
  action_bar s = true →
  ∃ s1 s2,
    run s [ScanFoodClick; Settle (length (pending s)) granted] = Some s1
    ∧ camera_view s1 = true
    ∧ attached_stream s1 = Some (length (streams s))
    ∧ streams s1 = streams s ++ [[live]]
    ∧ dispatch s1 CameraCancelClick = Some s2
    ∧ streams s2 = streams s ++ [[ended]]
    ∧ live_streams s2 = live_streams s
    ∧ isCameraActive s2 = false
    ∧ hero_view s2 = true.
Proof.
  intros Hbar. destruct (action_bar_flags s Hbar) as [Hc Ha].
  destruct s as [? cam ? an ? ? ? ? ? ref strs ? ? pend].
  simpl in Hc, Ha. subst cam an. clear Hbar.
  unfold live_streams, attached_stream.
  destruct ref as [v|]; exec; settle_last.
  all: eexists _, _; do 4 (split; [reflexivity|]).
  all: (split; [exec; reflexivity|]); exec.
  all: pose proof (stop_opened_stream strs) as Hstop; exec_in Hstop.
  all: rewrite Hstop, live_streams_closed; done.
Qed.

Lemma cancelled_session_releases_stream_witness :
  ∃ s1 s2,
    run initial [ScanFoodClick; Settle 0 granted] = Some s1
    ∧ streams s1 = [[live]]
    ∧ dispatch s1 CameraCancelClick = Some s2
    ∧ streams s2 = [[ended]]
    ∧ live_streams s2 = 0%nat.
Proof.
  destruct (cancelled_session_releases_stream initial eq_refl)
    as (s1 & s2 & Hrun & _ & _ & Hs1 & Hd & Hs2 & Hl & _).
  exists s1, s2. split; [exact Hrun|]. split; [exact Hs1|].
  split; [exact Hd|]. split; [exact Hs2 | exact Hl].
Defined.

(** X8. A camera session cancelled before the device has answered leaks the
    stream: when the device then grants the request, the video element is
    gone, so the new stream is attached to nothing and none of its tracks
    is stopped; one more stream is live although the camera flag is off. *)
Theorem cancel_before_grant_leaks_stream (s : App) :
  rendered s →
  action_bar s = true →
  ∃ s',
    run s [ScanFoodClick; CameraCancelClick;
           Settle (length (pending s)) granted] = Some s'
    ∧ isCameraActive s' = false
    ∧ attached_stream s' = None
    ∧ streams s' = streams s ++ [[live]]
    ∧ live_streams s' = S (live_streams s)
    ∧ hero_view s' = true.
Proof.
  intros Hr Hbar. destruct (action_bar_flags s Hbar) as [Hc Ha].
  assert (Hv : videoRef s = None).
  { unfold rendered, commit in Hr. rewrite Hc in Hr.
    apply (f_equal videoRef) in Hr. by rewrite <- Hr. }
  destruct s as [? cam ? an ? ? ? ? ? ref strs ? ? pend].
  simpl in Hc, Ha, Hv. subst cam an ref. clear Hbar Hr.
  unfold live_streams, attached_stream.
  exec; settle_last.
  eexists; (split; [reflexivity|]); exec.
  rewrite live_streams_opened. done.
Qed.

Lemma cancel_before_grant_leaks_stream_witness :
  ∃ s',
    run initial [ScanFoodClick; CameraCancelClick; Settle 0 granted]
    = Some s'
    ∧ isCameraActive s' = false
    ∧ streams s' = [[live]]
    ∧ live_streams s' = 1%nat.
Proof.
  destruct (cancel_before_grant_leaks_stream initial eq_refl eq_refl)
    as (s' & Hrun & Hc & _ & Hs & Hl & _).
  exists s'. split; [exact Hrun|]. split; [exact Hc|].
  split; [exact Hs | exact Hl].
Defined.

(** Scan Food, Retake Photo and New Scan do the same to the state:
    the two inline handlers clear the image and the record before calling
    [startCamera], which clears them itself. *)
Lemma retake_and_newScan_are_startCamera (s : App) :
  retake s = startCamera s ∧ newScan s = startCamera s.
Proof. by destruct s. Qed.

(** ** Results, history entries and the store *)

(** X9. When the oracle answers but [localStorage] refuses the write, the
    analysis still ends in the Result view with the record, and the entry
    is in the history list in memory; the error banner is shown with a
    message that is not empty, and the store is as it was before. *)
Theorem failed_write_keeps_result (s : App) (src : Source) (img : jsstring)
    (r : FoodData) (nid nts : Z) (err : JSError) :
  action_bar s = true →
  ∃ s1,
    run s (image_events (length (pending s)) src img
             (image_analyzed r nid nts (Some err))) = Some s1
    ∧ results_view s1 = true
    ∧ foodData s1 = Some r
    ∧ history s1 = take 20 (newHistory (Some img) r nid nts :: history s)
    ∧ error s1 = Some (analyze_failed_message err)
    ∧ error_banner s1 = true
    ∧ localStorage s1 = localStorage s.
Proof.
  intros Hbar. destruct (action_bar_flags s Hbar) as [Hc Ha].
  pose proof (analyze_failed_message_truthy err) as Hm.
  unfold analyze_failed_message in *.
  destruct s as [? cam ? an ? ? ? ? ? ref strs ? ? pend].
  simpl in Hc, Ha. subst cam an. clear Hbar.
  destruct src, ref as [v|]; exec; settle_last; settle_last.
  all: eexists; (split; [reflexivity|]); exec; by rewrite Hm.
Qed.

Lemma failed_write_keeps_result_witness :
  ∃ s1,
    run initial
      (image_events 0 by_upload (lit "data:image/png;base64,iVBOR")
         (image_analyzed paneer_tikka 7 7
            (Some {| message := Some (lit "QuotaExceededError") |})))
    = Some s1
    ∧ foodData s1 = Some paneer_tikka
    ∧ error s1 = Some (lit "QuotaExceededError")
    ∧ localStorage s1 = ∅.
Proof.
  destruct (failed_write_keeps_result initial by_upload
              (lit "data:image/png;base64,iVBOR") paneer_tikka 7 7
              {| message := Some (lit "QuotaExceededError") |} eq_refl)
    as (s1 & Hrun & _ & Hfd & _ & He & _ & Hls).
  exists s1. split; [exact Hrun|]. split; [exact Hfd|].
  split; [exact He | exact Hls].
Defined.

(** X10. The entry an image analysis records can be shown again: after the
    result is cleared, opening the history panel and selecting the first
    row shows the same record and the same image in the Result view and
    closes the panel, without a request to the oracle and without a change
    of the history list or of the store. *)
Theorem recorded_entry_is_shown_again (s : App) (src : Source)
    (img : jsstring) (r : FoodData) (nid nts : Z) (thr : option JSError) :
  action_bar s = true →
  showHistory s = false →
  ∃ s1 s2,
    run s (image_events (length (pending s)) src img
             (image_analyzed r nid nts thr)) = Some s1
    ∧ run s1 [ClearClick; HistoryButtonClick; HistoryItemClick 0] = Some s2
    ∧ foodData s2 = Some r
    ∧ capturedImage s2 = Some img
    ∧ results_view s2 = true
    ∧ showHistory s2 = false
    ∧ history s2 = history s1
    ∧ pending s2 = pending s
    ∧ localStorage s2 = localStorage s1.
Proof.
  intros Hbar Hsh. destruct (action_bar_flags s Hbar) as [Hc Ha].
  destruct s as [? cam ? an ? ? ? sh ? ref strs ? ? pend].
  simpl in Hc, Ha, Hsh. subst cam an sh. clear Hbar.
  destruct src, thr as [e|], ref as [v|]; exec; settle_last; settle_last.
  all: eexists _, _; (split; [reflexivity|]).
  all: (split; [exec; reflexivity|]); done.
Qed.

Lemma recorded_entry_is_shown_again_witness :
  ∃ s1 s2,
    run initial
      (image_events 0 by_camera (lit "data:image/jpeg;base64,AA")
         (image_analyzed paneer_tikka 7 7 None)) = Some s1
    ∧ run s1 [ClearClick; HistoryButtonClick; HistoryItemClick 0] = Some s2
    ∧ foodData s2 = Some paneer_tikka
    ∧ capturedImage s2 = Some (lit "data:image/jpeg;base64,AA").
Proof.
  destruct (recorded_entry_is_shown_again initial by_camera
              (lit "data:image/jpeg;base64,AA") paneer_tikka 7 7 None
              eq_refl eq_refl)
    as (s1 & s2 & Hrun & Hsel & Hfd & Hci & _).
  exists s1, s2. split; [exact Hrun|]. split; [exact Hsel|].
  split; [exact Hfd | exact Hci].
Defined.

(** X11. A search from the form whose request fails ends in the Idle view
    with the error banner: the message of the thrown value, or
    [Search failed.] when it has none.  Dismiss then leaves the plain Idle
    view, with the text of the form, the history and the store as they
    were. *)
Theorem failed_search_returns_to_idle (s : App) (err : JSError) :
  hero_view s = true →
  trim (manualInput s) ≠ [] →
  ∃ s1 s2,
    run s [SearchSubmit; Settle (length (pending s)) (failed err)] = Some s1
    ∧ error s1 = Some (search_failed_message err)
    ∧ error_banner s1 = true
    ∧ hero_view s1 = true
    ∧ dispatch s1 DismissClick = Some s2
    ∧ error s2 = None
    ∧ hero_view s2 = true
    ∧ manualInput s2 = manualInput s
    ∧ history s2 = history s
    ∧ localStorage s2 = localStorage s.
Proof.
  intros Hv Hq.
  assert (Ht : truthy_string (trim (manualInput s)) = true)
    by (destruct (trim (manualInput s)); done).
  assert (Hm : truthy_string (search_failed_message err) = true)
    by (by apply or_else_truthy).
  unfold search_failed_message in *.
  destruct s as [? cam ci an fd ? ? ? mi ref ? ? ? pend].
  unfold hero_view in Hv. simpl in Hv, Ht.
  destruct fd, an, cam, ci as [[|c r]|]; try discriminate Hv. clear Hv Hq.
  all: exec; cbn [truthy_string]; rewrite Ht; exec; settle_last.
  all: eexists _, _; (split; [reflexivity|]); (split; [reflexivity|]).
  all: exec; rewrite Hm; (split; [reflexivity|]); (split; [reflexivity|]).
  all: (split; [reflexivity|]); done.
Qed.

Lemma failed_search_returns_to_idle_witness :
  ∃ s1 s2,
    run (setManualInput (lit " dal ") initial)
      [SearchSubmit; Settle 0 (failed {| message := None |})] = Some s1
    ∧ error s1 = Some (lit "Search failed.")
    ∧ dispatch s1 DismissClick = Some s2
    ∧ hero_view s2 = true
    ∧ manualInput s2 = lit " dal ".
Proof.
  destruct (failed_search_returns_to_idle
              (setManualInput (lit " dal ") initial) {| message := None |})
    as (s1 & s2 & Hrun & He & _ & _ & Hd & _ & Hv & Hmi & _);
    [reflexivity | discriminate |].
  exists s1, s2. split; [exact Hrun|]. split; [exact He|].
  split; [exact Hd|]. split; [exact Hv | exact Hmi].
Defined.

Lemma lookup_issued_first (l : list Continuation) (k k' : Continuation) :
  ((l ++ [k]) ++ [k']) !! length l = Some k.
Proof. rewrite <- app_assoc. by apply list_lookup_middle. Qed.

Lemma delete_issued_first (l : list Continuation) (k k' : Continuation) :
  delete (length l) ((l ++ [k]) ++ [k']) = l ++ [k'].
Proof. rewrite <- app_assoc. apply delete_middle. Qed.

(** X12. Two uploads that overlap lose an entry: when two files are chosen
    before the first is read and both analyses succeed, the analysis
    answered last prepends its entry to the history of the render in which
    its file was chosen, so the entry of the other analysis is dropped from
    the list and from the store. *)
Theorem overlapping_uploads_drop_an_entry (s : App) (a b : jsstring)
    (ra rb : FoodData) (ia ta ib tb : Z) :
  action_bar s = true →
  ∃ s1 s2,
    run s [FileChange true; FileChange true;
           Settle (length (pending s)) (loaded (Some a));
           Settle (length (pending s)) (loaded (Some b));
           Settle (length (pending s)) (image_analyzed ra ia ta None)]
    = Some s1
    ∧ history s1 = take 20 (newHistory (Some a) ra ia ta :: history s)
    ∧ dispatch s1 (Settle (length (pending s)) (image_analyzed rb ib tb None))
      = Some s2
    ∧ history s2 = take 20 (newHistory (Some b) rb ib tb :: history s)
    ∧ localStorage s2 !! history_key = Some (JSON_stringify (history s2))
    ∧ foodData s2 = Some rb
    ∧ pending s2 = pending s.
Proof.
  intros Hbar. destruct (action_bar_flags s Hbar) as [Hc Ha].
  destruct s as [? cam ? an ? ? ? ? ? ref strs ? ? pend].
  simpl in Hc, Ha. subst cam an. clear Hbar.
  destruct ref as [v|]; exec.
  all: rewrite lookup_issued_first, delete_issued_first; exec.
  all: rewrite lookup_issued_first, delete_issued_first; exec.
  all: rewrite lookup_issued_first, delete_issued_first; exec.
  all: eexists _, _; (split; [reflexivity|]); (split; [reflexivity|]).
  all: exec; settle_last; (split; [reflexivity|]); (split; [reflexivity|]).
  all: split; [apply lookup_insert_eq | done].
Qed.

Lemma overlapping_uploads_drop_an_entry_witness :
  ∃ s1 s2,
    run initial
      [FileChange true; FileChange true;
       Settle 0 (loaded (Some (lit "data:image/png;base64,iVBOR")));
       Settle 0 (loaded (Some (lit "data:image/png;base64,R0lGO")));
       Settle 0 (image_analyzed paneer_tikka 1 1 None)] = Some s1
    ∧ timestamp <$> history s1 = [1]
    ∧ dispatch s1 (Settle 0 (image_analyzed paneer_tikka 2 2 None)) = Some s2
    ∧ timestamp <$> history s2 = [2].
Proof.
  destruct (overlapping_uploads_drop_an_entry initial
              (lit "data:image/png;base64,iVBOR")
              (lit "data:image/png;base64,R0lGO")
              paneer_tikka paneer_tikka 1 1 2 2 eq_refl)
    as (s1 & s2 & Hrun & Hh1 & Hd & Hh2 & _).
  exists s1, s2. split; [exact Hrun|].
  split; [rewrite Hh1; reflexivity|].
  split; [exact Hd|]. rewrite Hh2. reflexivity.
Defined.

(** ** The theme at mount *)

(** X13. When the load effect returns, it asks for the dark mode (and adds
    the dark class) exactly when the text under the theme key is [dark];
    any other text, and no text, leave the light mode. *)
Theorem dark_mode_loaded_iff_stored_dark (store : gmap jsstring jsstring)
    (updates : list Update) :
  persistence_effect store = Returns updates →
  loads_dark updates = bool_decide (store !! theme_key = Some (lit "dark"))
  ∧ (AddDarkClass ∈ updates ↔ store !! theme_key = Some (lit "dark")).
Proof.
  unfold persistence_effect.
  destruct (store !! history_key) as [[|c text]|]; cbn [truthy_string].
  2: destruct (JSON.parse (c :: text)) as [v|]; [|done].
  all: destruct (decide (store !! theme_key = Some (lit "dark"))) as [Hd|Hd].
  all: intros [= <-].
  all: rewrite ?(bool_decide_eq_true_2 _ Hd), ?(bool_decide_eq_false_2 _ Hd).
  all: split; [reflexivity|].
  all: split; [intros Hin | intros Hdark]; try done.
  all: try (simpl; repeat first [apply list_elem_of_here
                                | apply list_elem_of_further]).
  all: exfalso.
  all: repeat (apply elem_of_cons in Hin as [Hin|Hin]; [discriminate Hin|]).
  all: by apply elem_of_nil in Hin.
Qed.

Lemma dark_mode_loaded_iff_stored_dark_witness :
  persistence_effect {[ theme_key := lit "Dark" ]} = Returns []
  ∧ loads_dark [] = false.
Proof.
  split; [vm_compute; reflexivity|].
  assert (H : persistence_effect {[ theme_key := lit "Dark" ]} = Returns [])
    by (vm_compute; reflexivity).
  rewrite (proj1 (dark_mode_loaded_iff_stored_dark _ _ H)).
  vm_compute. reflexivity.
Defined.

(** X14. The theme survives a reload as long as no write of the theme
    throws: after a sequence of events from the first render without such
    a throw, a mount that finds under the theme key the text the component
    stored (or nothing, if it stored nothing) and whose load effect returns
    asks for the dark mode exactly when [isDarkMode] held. *)
Theorem stored_theme_is_restored (es : list Event) (s : App)
    (store : gmap jsstring jsstring) (updates : list Update) :
  forallb theme_write_accepted es = true →
  run initial es = Some s →
  Text <$> store !! theme_key = localStorage s !! theme_key →
  persistence_effect store = Returns updates →
  loads_dark updates = isDarkMode s.
Proof.
  intros Hacc Hrun Hst Hload.
  assert (Hth : theme_in_step s).
  { apply (run_theme es initial s Hacc Hrun). split; [done|]. by left. }
  destruct Hth as [_ Hth].
  assert (Hdark : bool_decide (store !! theme_key = Some (lit "dark"))
                  = isDarkMode s).
  { destruct Hth as [[Hn ->]|Hs]; rewrite ?Hn, ?Hs in Hst.
    - destruct (store !! theme_key); [done|]. by apply bool_decide_eq_false_2.
    - destruct (store !! theme_key) as [t|]; [|done].
      injection Hst as ->. by destruct (isDarkMode s). }
  rewrite <- Hdark. clear Hdark Hth Hst Hrun Hacc.
  unfold persistence_effect in Hload.
  destruct (store !! history_key) as [[|c text]|]; cbn [truthy_string] in Hload.
  2: destruct (JSON.parse (c :: text)) as [v|]; [|done].
  all: destruct (decide (store !! theme_key = Some (lit "dark"))) as [Hd|Hd].
  all: injection Hload as <-.
  all: rewrite ?(bool_decide_eq_true_2 _ Hd), ?(bool_decide_eq_false_2 _ Hd).
  all: reflexivity.
Qed.

Lemma stored_theme_is_restored_witness :
  ∃ s, run initial [ThemeButtonClick None] = Some s
       ∧ isDarkMode s = true
       ∧ persistence_effect {[ theme_key := lit "dark" ]}
         = Returns [SetIsDarkMode true; AddDarkClass]
       ∧ loads_dark [SetIsDarkMode true; AddDarkClass] = true.
Proof.
  assert (Hex : ∃ s, run initial [ThemeButtonClick None] = Some s)
    by (eexists; vm_compute; reflexivity).
  destruct Hex as [s Hrun].
  assert (Hload : persistence_effect {[ theme_key := lit "dark" ]}
                  = Returns [SetIsDarkMode true; AddDarkClass])
    by (vm_compute; reflexivity).
  assert (Hst : Text <$> ({[ theme_key := lit "dark" ]}
                            : gmap jsstring jsstring) !! theme_key
                = localStorage s !! theme_key).
  { pose proof Hrun as H. vm_compute in H. injection H as <-.
    vm_compute. reflexivity. }
  pose proof (stored_theme_is_restored [ThemeButtonClick None] s _ _
                eq_refl Hrun Hst Hload) as Hdark.
  exists s. split; [exact Hrun|]. split; [by rewrite <- Hdark|].
  split; [exact Hload | reflexivity].
Defined.

(** ** What is never stopped, and what is never stored *)

Lemma detached_commit (strs : list MediaStream) (i : nat) (s : App) :
  detached_as strs i s → detached_as strs i (commit s).
Proof.
  destruct s as [dm cam ci an fd er hi sh mi [v|] sts ls dc pend];
    destruct cam; unfold detached_as, attached_stream; simpl; try done.
  all: intros (Hi & _ & Hl); done.
Qed.

Lemma handle_detached (strs : list MediaStream) (i : nat) (e : Event)
    (s t : App) :
  handle e s = Some t → detached_as strs i s → detached_as strs i t.
Proof.
  intros H (Hi & Hne & Hl).
  destruct s as [dm cam ci an fd er hi sh mi ref sts ls dc pend].
  unfold detached_as, attached_stream in *. simpl in Hi, Hne, Hl.
  step_cases H; simpl; try done.
  all: rewrite ?length_alter, ?length_app.
  all: try (split; [simpl; lia|]; split; [intros [= Heq]; lia|];
            by rewrite lookup_app_l).
  all: split; [assumption|]; split; [assumption|].
  all: rewrite list_lookup_alter_ne; [assumption|].
  all: intros ->; by apply Hne.
Qed.

Lemma run_detached (strs : list MediaStream) (i : nat) (es : list Event)
    (s t : App) :
  run s es = Some t → detached_as strs i s → detached_as strs i t.
Proof.
  revert s. induction es as [|e es IH]; intros s Hrun Hs; simpl in Hrun.
  - by injection Hrun as <-.
  - unfold dispatch in Hrun.
    destruct (handle e s) as [u|] eqn:Hu; simpl in Hrun; [|done].
    apply (IH (commit u) Hrun). apply detached_commit.
    by eapply handle_detached.
Qed.

(** X15. The handlers can only stop the stream the video element shows: a
    stream of the device that is not attached (it was replaced by a later
    start, or granted after the camera view was left) keeps the state of
    its tracks through every sequence of events. *)
Theorem detached_stream_is_never_stopped (es : list Event) (s t : App)
    (i : nat) :
  run s es = Some t →
  (i < length (streams s))%nat →
  attached_stream s ≠ Some i →
  streams t !! i = streams s !! i.
Proof.
  intros Hrun Hi Hne.
  assert (H : detached_as (streams s) i t); [|by destruct H as (_ & _ & H)].
  by apply (run_detached (streams s) i es s t Hrun).
Qed.

(** The stream leaked by a cancel before the grant stays live through a
    full camera session with a capture. *)
Lemma detached_stream_is_never_stopped_witness :
  ∃ s t,
    run initial [ScanFoodClick; CameraCancelClick; Settle 0 granted] = Some s
    ∧ run s [ScanFoodClick; Settle 0 granted;
             CaptureClick (lit "data:image/jpeg;base64,AA") true;
             Settle 0 (image_analyzed paneer_tikka 3 3 None)] = Some t
    ∧ streams s !! 0%nat = Some [live]
    ∧ streams t !! 0%nat = Some [live].
Proof.
  assert (Hex : ∃ s, run initial [ScanFoodClick; CameraCancelClick;
                                  Settle 0 granted] = Some s)
    by (eexists; vm_compute; reflexivity).
  destruct Hex as [s Hs].
  set (es := [ScanFoodClick; Settle 0 granted;
              CaptureClick (lit "data:image/jpeg;base64,AA") true;
              Settle 0 (image_analyzed paneer_tikka 3 3 None)]).
  assert (Hex : ∃ t, run s es = Some t).
  { pose proof Hs as H. vm_compute in H. injection H as <-.
    eexists. vm_compute. reflexivity. }
  destruct Hex as [t Ht].
  assert (Hl : streams s !! 0%nat = Some [live]).
  { pose proof Hs as H. vm_compute in H. injection H as <-. reflexivity. }
  assert (Hi : (0 < length (streams s))%nat).
  { pose proof Hs as H. vm_compute in H. injection H as <-. simpl. lia. }
  assert (Hne : attached_stream s ≠ Some 0%nat).
  { pose proof Hs as H. vm_compute in H. injection H as <-. discriminate. }
  pose proof (detached_stream_is_never_stopped es s t 0 Ht Hi Hne) as Hkeep.
  exists s, t. split; [exact Hs|]. split; [exact Ht|].
  split; [exact Hl|]. rewrite Hkeep. exact Hl.
Defined.

Lemma handle_stored_bound (e : Event) (s t : App) :
  handle e s = Some t →
  (∀ v, localStorage s !! history_key = Some v →
     ∃ h, v = JSON_stringify h ∧ (length h ≤ 20)%nat) →
  ∀ v, localStorage t !! history_key = Some v →
    ∃ h, v = JSON_stringify h ∧ (length h ≤ 20)%nat.
Proof.
  intros H Hs.
  destruct s as [dm cam ci an fd er hi sh mi ref strs ls dc pend].
  simpl in Hs.
  step_cases H; simpl; try assumption.
  all: try (rewrite lookup_insert_ne by (apply not_eq_sym, keys_differ);
            assumption).
  all: rewrite lookup_insert_eq; intros v [= <-]; eexists; split; [done|].
  all: simpl; rewrite length_take; lia.
Qed.

(** X16. In every reachable state, whatever is stored under the history key
    is the serialization of a list of at most 20 entries, whether or not
    some writes were refused on the way. *)
Theorem stored_history_never_exceeds_20 (s : App) (v : StorageValue) :
  reachable s →
  localStorage s !! history_key = Some v →
  ∃ h, v = JSON_stringify h ∧ (length h ≤ 20)%nat.
Proof.
  intros Hr. revert v.
  induction Hr as [|s e s' _ IH Hd]; [intros v Hv; done|].
  unfold dispatch in Hd.
  destruct (handle e s) as [t|] eqn:Ht; simplify_eq/=.
  assert (He : localStorage (commit t) = localStorage t)
    by (unfold commit; by repeat case_match).
  rewrite He. by eapply handle_stored_bound.
Qed.

Lemma stored_history_never_exceeds_20_witness :
  ∃ s h, run initial (twenty_one_shots ≫= shot_events) = Some s
         ∧ localStorage s !! history_key = Some (JSON_stringify h)
         ∧ (length h ≤ 20)%nat.
Proof.
  destruct (shots_run twenty_one_shots) as (s & Hrun & _).
  pose proof (run_reachable initial s _ reachable_initial Hrun) as Hr.
  destruct (localStorage s !! history_key) as [v|] eqn:Hv.
  - destruct (stored_history_never_exceeds_20 s v Hr Hv) as (h & -> & Hlen).
    exists s, h. split; [exact Hrun|]. split; [exact Hv | exact Hlen].
  - exfalso. vm_compute in Hrun. injection Hrun as <-.
    vm_compute in Hv. discriminate Hv.
Defined.
